(** * Trail Service API: a shallow embedding of the request handlers

    The development follows the layout of the application:
    - [config.py]        the [Settings] record;
    - [auth_service.py]  [AuthUtils]: token issue / validation and the
                         external credential check;
    - [user_service.py]  [UserService]: the user directory;
    - [main.py]          the route handlers ([login], [get_current_user],
                         the trail CRUD handlers).

    Handlers run against a database connection.  The connection is modelled
    as explicit state: the durable store, the view of the open transaction,
    the calls made so far, and a schedule of driver failures, so that every
    statement is free to raise [pyodbc.Error]. *)

From Stdlib Require Import ZArith List String Ascii Bool Lia DecimalString.
Import ListNotations.
Local Open Scope string_scope.
Local Open Scope list_scope.
Local Open Scope Z_scope.

(** ** Python values used by the handlers *)

(** Exceptions that the handlers raise, catch or let through. *)
Inductive exn : Type :=
| HTTPException (status_code : Z) (detail : string)
| PyodbcError (msg : string)            (* pyodbc.Error *)
| ConnectionError (msg : string)        (* requests.RequestException: no reply *)
| JSONDecodeError (msg : string)        (* requests.JSONDecodeError, a RequestException *)
| ExpiredSignatureError                 (* jwt.ExpiredSignatureError *)
| DecodeError (msg : string)            (* jwt.PyJWTError subclasses *)
| InvalidAlgorithmError
| InvalidSignatureError
| NotImplementedError (msg : string)
| TypeError (msg : string).

(** [except requests.RequestException] *)
Definition is_RequestException (e : exn) : bool :=
  match e with
  | ConnectionError _ | JSONDecodeError _ => true
  | _ => false
  end.

(** [except jwt.PyJWTError]; [ExpiredSignatureError] is one of its subclasses. *)
Definition is_PyJWTError (e : exn) : bool :=
  match e with
  | ExpiredSignatureError | DecodeError _
  | InvalidAlgorithmError | InvalidSignatureError => true
  | _ => false
  end.

Definition is_pyodbc_Error (e : exn) : bool :=
  match e with
  | PyodbcError _ => true
  | _ => false
  end.

Definition str_of_Z (z : Z) : string := NilZero.string_of_int (Z.to_int z).

(** [str(e)] *)
Definition str (e : exn) : string :=
  match e with
  | HTTPException c d => (str_of_Z c ++ ": " ++ d)%string
  | PyodbcError m | ConnectionError m | JSONDecodeError m
  | DecodeError m | NotImplementedError m | TypeError m => m
  | ExpiredSignatureError => "Signature has expired"
  | InvalidAlgorithmError => "The specified alg value is not allowed"
  | InvalidSignatureError => "Signature verification failed"
  end.

(** The result of running a piece of Python: an exception or a value. *)
Inductive outcome (A : Type) : Type :=
| Raise (e : exn)
| Return (a : A).
Arguments Raise {A} e.
Arguments Return {A} a.

(** The status line the framework sends: an [HTTPException] carries its own
    status, any other exception that escapes a handler is a 500. *)
Definition http_status {A : Type} (r : outcome A) : Z :=
  match r with
  | Return _ => 200
  | Raise (HTTPException c _) => c
  | Raise _ => 500
  end.

(** JSON documents, as [response.json()] returns them. *)
#[local] Set Warnings "-register-all".
Inductive JSON : Type :=
| JNull
| JBool (b : bool)
| JNum (n : Z)
| JString (s : string)
| JArray (items : list JSON)
| JObject (fields : list (string * JSON)).

(** Values stored in a token's claim set. *)
Inductive JVal : Type :=
| JStr (s : string)
| JInt (n : Z).

Definition JVal_eqb (a b : JVal) : bool :=
  match a, b with
  | JStr x, JStr y => String.eqb x y
  | JInt x, JInt y => Z.eqb x y
  | _, _ => false
  end.

(** A Python [dict] with string keys: insertion ordered, keys unique. *)
Definition dict (V : Type) : Type := list (string * V).

Fixpoint dict_get {V : Type} (k : string) (d : dict V) : option V :=
  match d with
  | [] => None
  | (k', v) :: rest => if String.eqb k k' then Some v else dict_get k rest
  end.

(** [d.update({k: v})]: overwrite in place when the key is there, append
    otherwise. *)
Fixpoint dict_update {V : Type} (k : string) (v : V) (d : dict V) : dict V :=
  match d with
  | [] => [(k, v)]
  | (k', v') :: rest =>
      if String.eqb k k' then (k', v) :: rest
      else (k', v') :: dict_update k v rest
  end.

Definition Claims : Type := dict JVal.

Fixpoint Claims_eqb (a b : Claims) : bool :=
  match a, b with
  | [], [] => true
  | (k, v) :: a', (k', v') :: b' =>
      String.eqb k k' && JVal_eqb v v' && Claims_eqb a' b'
  | _, _ => false
  end.

(** ** config.py *)

Record Settings : Type := {
  SECRET_KEY : string;
  ALGORITHM : string;
  ACCESS_TOKEN_EXPIRE_MINUTES : Z;
  PLYMOUTH_AUTH_URL : string
}.

Definition default_settings : Settings := {|
  SECRET_KEY := "your-fallback-secret-key-never-use-in-production";
  ALGORITHM := "HS256";
  ACCESS_TOKEN_EXPIRE_MINUTES := 30;
  PLYMOUTH_AUTH_URL := "https://web.socem.plymouth.ac.uk/COMP2001/auth/api/users"
|}.

(** Times are whole seconds since the epoch; a [timedelta] is a number of
    seconds. *)
Definition timedelta_minutes (m : Z) : Z := 60 * m.

(** ** The JWT library

    Modelled from the spec: the token library behind [jwt.encode] and
    [jwt.decode] is not part of the sources.  A token is "a signed,
    tamper-evident string using a symmetric secret and a fixed signing
    algorithm"; validation "fails with Expired when current time exceeds
    embedded expiry; fails with Invalid for any signature mismatch, malformed
    structure, or unsupported algorithm".  The signature is symbolic: the MAC
    of a body under a key is the term built from them, so two signatures agree
    exactly when key, algorithm and body agree. *)
Module jwt.

Inductive MAC : Type :=
| Mac (key : string) (alg : string) (body : Claims)
| Noise (bytes : string).

Definition MAC_eqb (a b : MAC) : bool :=
  match a, b with
  | Mac k g p, Mac k' g' p' => String.eqb k k' && String.eqb g g' && Claims_eqb p p'
  | Noise x, Noise y => String.eqb x y
  | _, _ => false
  end.

Record JWS : Type := {
  header_alg : string;
  payload : Claims;
  signature : MAC
}.

(** What a client can put after [Bearer]: any string; either it splits
    into header, payload and signature, or it does not. *)
Inductive Token : Type :=
| Malformed (raw : string)
| Compact (t : JWS).

Definition supported_algorithms : list string := ["HS256"; "HS384"; "HS512"].

Definition mem (x : string) (l : list string) : bool :=
  existsb (String.eqb x) l.

Definition encode (claims : Claims) (key : string) (algorithm : string)
  : outcome Token :=
  if mem algorithm supported_algorithms then
    Return (Compact {| header_alg := algorithm;
                       payload := claims;
                       signature := Mac key algorithm claims |})
  else Raise (NotImplementedError "Algorithm not supported").

(** The expiry check of [decode]: absent [exp] is accepted, an [exp] that
    is not an integer is a decoding error, and the token is expired when
    the current time exceeds it. *)
Definition validate_exp (claims : Claims) (now : Z) : outcome Claims :=
  match dict_get "exp" claims with
  | None => Return claims
  | Some (JStr _) =>
      Raise (DecodeError "Expiration Time claim (exp) must be an integer.")
  | Some (JInt exp) =>
      if exp <? now then Raise ExpiredSignatureError else Return claims
  end.

Definition decode (token : Token) (key : string) (algorithms : list string)
           (now : Z) : outcome Claims :=
  match token with
  | Malformed _ => Raise (DecodeError "Not enough segments")
  | Compact t =>
      if negb (mem (header_alg t) algorithms
               && mem (header_alg t) supported_algorithms)
      then Raise InvalidAlgorithmError
      else if negb (MAC_eqb (signature t) (Mac key (header_alg t) (payload t)))
      then Raise InvalidSignatureError
      else validate_exp (payload t) now
  end.

End jwt.

(** ** auth_service.py *)

(** What [requests.post] brings back from the identity service. *)
Inductive Body : Type :=
| NotJson (text : string)
| Json (doc : JSON).

Inductive HttpReply : Type :=
| Unreachable (why : string)              (* the call raised before any reply *)
| Response (status_code : Z) (body : Body).

(** [response.json()] *)
Definition response_json (b : Body) : outcome JSON :=
  match b with
  | Json doc => Return doc
  | NotJson _ => Raise (JSONDecodeError "Expecting value: line 1 column 1 (char 0)")
  end.

(** [result == ["Verified", "True"]] *)
Definition is_verified_list (result : JSON) : bool :=
  match result with
  | JArray [JString a; JString b] => String.eqb a "Verified" && String.eqb b "True"
  | _ => false
  end.

Module AuthUtils.

Definition create_access_token (settings : Settings) (data : Claims)
           (expires_delta : option Z) (utcnow : Z) : outcome jwt.Token :=
  let to_encode := data in
  let expire :=
    match expires_delta with
    | Some delta =>
        (* a zero timedelta is falsy *)
        if negb (delta =? 0) then utcnow + delta
        else utcnow + timedelta_minutes (ACCESS_TOKEN_EXPIRE_MINUTES settings)
    | None => utcnow + timedelta_minutes (ACCESS_TOKEN_EXPIRE_MINUTES settings)
    end in
  let to_encode := dict_update "exp" (JInt expire) to_encode in
  jwt.encode to_encode (SECRET_KEY settings) (ALGORITHM settings).

Definition verify_plymouth_credentials
           (post : string -> string -> string -> HttpReply)
           (settings : Settings) (email password : string) : outcome bool :=
  let attempt : outcome bool :=
    match post (PLYMOUTH_AUTH_URL settings) email password with
    | Unreachable why => Raise (ConnectionError why)
    | Response status_code body =>
        if status_code =? 200 then
          match response_json body with
          | Raise e => Raise e
          | Return result => Return (is_verified_list result)
          end
        else Return false
    end in
  match attempt with
  | Raise e =>
      if is_RequestException e then
        Raise (HTTPException 503 "Could not connect to authentication service")
      else Raise e
  | Return b => Return b
  end.

Definition decode_token (settings : Settings) (token : jwt.Token) (now : Z)
  : outcome Claims :=
  match jwt.decode token (SECRET_KEY settings) [ALGORITHM settings] now with
  | Return payload => Return payload
  | Raise e =>
      match e with
      | ExpiredSignatureError => Raise (HTTPException 401 "Token has expired")
      | _ =>
          if is_PyJWTError e then
            Raise (HTTPException 401 "Could not validate credentials")
          else Raise e
      end
  end.

End AuthUtils.

(** ** The relational store *)

Record UserRow : Type := {
  UserID : Z;
  Name : string;
  Email : string;
  Password : string
}.

Record TrailRow : Type := {
  TrailID : Z;
  TrailName : string;
  Description : option string;
  DateCreated : Z;
  CreatedBy : Z
}.

(** The tables of schema [CW1] that the handlers touch, and the identity
    counter from which the server assigns [TrailID]. *)
Record Store : Type := {
  User_table : list UserRow;
  Trail_table : list TrailRow;
  next_TrailID : Z
}.

(** The statements the handlers send, with their parameters. *)
Inductive Statement : Type :=
| SelectUserByEmail (email : string)
| SelectMaxUserID
| InsertUser (new_id : Z) (name email : string)
| SelectAllTrails
| SelectTrailByID (trail_id : Z)
| SelectCreatedBy (trail_id : Z)
| SelectTopTrail
| ExecAddNewTrail (name : string) (description : option string)
                  (date_created created_by : Z)
| ExecUpdateTrail (trail_id : Z) (name : string) (description : option string)
| ExecDeleteTrail (trail_id : Z).

Definition is_write (sql : Statement) : bool :=
  match sql with
  | InsertUser _ _ _ | ExecAddNewTrail _ _ _ _
  | ExecUpdateTrail _ _ _ | ExecDeleteTrail _ => true
  | _ => false
  end.

(** [INSERT INTO CW1.[User] (UserID, Name, Email, Password)
     VALUES (?, ?, ?, 'external_auth')] *)
Definition insert_user (new_id : Z) (name email : string) (s : Store) : Store :=
  {| User_table := User_table s ++
       [{| UserID := new_id; Name := name; Email := email;
           Password := "external_auth" |}];
     Trail_table := Trail_table s;
     next_TrailID := next_TrailID s |}.

(** Modelled from the spec: the stored procedure [CW1.AddNewTrail] is not
    part of the sources.  It "persists via an atomic insert procedure with
    server-assigned id" the name, description, creation time and creator it
    is given. *)
Definition AddNewTrail (name : string) (description : option string)
           (date_created created_by : Z) (s : Store) : Store :=
  {| User_table := User_table s;
     Trail_table := Trail_table s ++
       [{| TrailID := next_TrailID s; TrailName := name;
           Description := description; DateCreated := date_created;
           CreatedBy := created_by |}];
     next_TrailID := next_TrailID s + 1 |}.

Definition set_name_description (name : string) (description : option string)
           (t : TrailRow) : TrailRow :=
  {| TrailID := TrailID t; TrailName := name; Description := description;
     DateCreated := DateCreated t; CreatedBy := CreatedBy t |}.

(** Modelled from the spec: the stored procedure [CW1.UpdateTrail] is not
    part of the sources.  It "mutates name/description only (never owner or
    timestamp)" of the trail with the given id. *)
Definition UpdateTrail (trail_id : Z) (name : string)
           (description : option string) (s : Store) : Store :=
  {| User_table := User_table s;
     Trail_table :=
       map (fun t => if TrailID t =? trail_id
                     then set_name_description name description t else t)
           (Trail_table s);
     next_TrailID := next_TrailID s |}.

(** Modelled from the spec: the stored procedure [CW1.DeleteTrail] is not
    part of the sources.  "Deletion is hard (no soft-delete/tombstone)". *)
Definition DeleteTrail (trail_id : Z) (s : Store) : Store :=
  {| User_table := User_table s;
     Trail_table := filter (fun t => negb (TrailID t =? trail_id)) (Trail_table s);
     next_TrailID := next_TrailID s |}.

(** What a statement does to the tables. *)
Definition effect (sql : Statement) (s : Store) : Store :=
  match sql with
  | InsertUser new_id name email => insert_user new_id name email s
  | ExecAddNewTrail name description date_created created_by =>
      AddNewTrail name description date_created created_by s
  | ExecUpdateTrail trail_id name description =>
      UpdateTrail trail_id name description s
  | ExecDeleteTrail trail_id => DeleteTrail trail_id s
  | _ => s
  end.

(** The rows the [SELECT]s bring back ([fetchone] takes the first). *)
Definition user_by_email (email : string) (s : Store) : option UserRow :=
  find (fun u => String.eqb (Email u) email) (User_table s).

(** [SELECT MAX(UserID)]: [NULL] on an empty table. *)
Definition max_UserID (s : Store) : option Z :=
  fold_left (fun acc u => match acc with
                          | None => Some (UserID u)
                          | Some m => Some (Z.max m (UserID u))
                          end)
            (User_table s) None.

Definition trail_by_id (trail_id : Z) (s : Store) : option TrailRow :=
  find (fun t => TrailID t =? trail_id) (Trail_table s).

(** [SELECT TOP 1 * ... ORDER BY TrailID DESC] *)
Definition top_trail (s : Store) : option TrailRow :=
  fold_left (fun acc t => match acc with
                          | None => Some t
                          | Some m => if TrailID m <? TrailID t then Some t else Some m
                          end)
            (Trail_table s) None.

(** ** The connection *)

Inductive Call : Type :=
| Execute (sql : Statement)
| Commit
| Rollback.

(** A [pyodbc] connection with autocommit off: [durable] is what the server
    holds, [txn] what the open transaction sees, [failures] says which of
    the coming calls raise [pyodbc.Error] (and with what message), [calls]
    is the record of the calls made, oldest first. *)
Record Connection : Type := {
  durable : Store;
  txn : Store;
  failures : list (option string);
  calls : list Call
}.

Definition DB (A : Type) : Type := Connection -> outcome A * Connection.

Definition ret {A : Type} (a : A) : DB A := fun c => (Return a, c).

Definition raise {A : Type} (e : exn) : DB A := fun c => (Raise e, c).

Definition bind {A B : Type} (m : DB A) (k : A -> DB B) : DB B :=
  fun c => match m c with
           | (Raise e, c') => (Raise e, c')
           | (Return a, c') => k a c'
           end.

Notation "x <- m ;; k" := (bind m (fun x => k))
  (at level 61, m at next level, right associativity).
Notation "m ;;; k" := (bind m (fun _ => k))
  (at level 61, right associativity).

Definition lift {A : Type} (r : outcome A) : DB A := fun c => (r, c).

(** [try: m / except <class> as e: handler e]; [catches] is the test of the
    [except] clause. *)
Definition try_except {A : Type} (m : DB A) (catches : exn -> bool)
           (handler : exn -> DB A) : DB A :=
  fun c => match m c with
           | (Raise e, c') => if catches e then handler e c' else (Raise e, c')
           | (Return a, c') => (Return a, c')
           end.

(** The outcome of the next driver call according to the schedule; a call
    that fails changes nothing. *)
Definition driver_call {A : Type} (what : Call) (result : Connection -> A)
           (after : Connection -> Store * Store) : DB A :=
  fun c =>
    match failures c with
    | Some msg :: rest =>
        (Raise (PyodbcError msg),
         {| durable := durable c; txn := txn c; failures := rest;
            calls := calls c ++ [what] |})
    | later =>
        (Return (result c),
         {| durable := fst (after c); txn := snd (after c);
            failures := tl later; calls := calls c ++ [what] |})
    end.

(** [cursor.execute(sql, ...)] followed by the fetch that [result] does. *)
Definition execute {A : Type} (sql : Statement) (result : Store -> A) : DB A :=
  driver_call (Execute sql) (fun c => result (txn c))
              (fun c => (durable c, effect sql (txn c))).

(** [conn.commit()] *)
Definition commit : DB unit :=
  driver_call Commit (fun _ => tt) (fun c => (txn c, txn c)).

(** [conn.rollback()] *)
Definition rollback : DB unit :=
  fun c => (Return tt,
            {| durable := durable c; txn := durable c; failures := failures c;
               calls := calls c ++ [Rollback] |}).

(** [get_db]: open a connection for one request and close it afterwards;
    what was not committed is lost with the connection. *)
Definition connect (s : Store) (schedule : list (option string)) : Connection :=
  {| durable := s; txn := s; failures := schedule; calls := [] |}.

Definition run {A : Type} (handler : DB A) (s : Store)
           (schedule : list (option string)) : outcome A * Store * list Call :=
  let '(r, c) := handler (connect s schedule) in (r, durable c, calls c).

(** ** user_service.py *)

(** The dictionaries [{"user_id": ..., "name": ..., "email": ...}]. *)
Record UserDict : Type := {
  user_id : Z;
  name : string;
  email : string
}.

(** [s.split(sep)[0]]: what precedes the first [sep], all of [s] when
    there is none. *)
Fixpoint split_head (sep : ascii) (s : string) : string :=
  match s with
  | EmptyString => EmptyString
  | String a rest =>
      if Ascii.eqb a sep then EmptyString else String a (split_head sep rest)
  end.

Module UserService.

Definition get_user_by_email (email : string) : DB (option UserDict) :=
  row <- execute (SelectUserByEmail email) (user_by_email email) ;;
  match row with
  | Some r => ret (Some {| user_id := UserID r; name := Name r; email := Email r |})
  | None => ret None
  end.

Definition create_user (email name : string) : DB UserDict :=
  try_except
    (max_id <- execute SelectMaxUserID max_UserID ;;
     let new_id := match max_id with
                   | None => 1
                   | Some m => m + 1
                   end in
     execute (InsertUser new_id name email) (fun _ => tt) ;;;
     commit ;;;
     ret {| user_id := new_id; name := name; email := email |})
    is_pyodbc_Error
    (fun e =>
       rollback ;;;
       raise (HTTPException 500 ("Error creating user: " ++ str e)%string)).

Definition get_or_create_user (email : string)
           (extract_name_from_email : bool) : DB UserDict :=
  user <- get_user_by_email email ;;
  match user with
  | None =>
      let name := if extract_name_from_email
                  then split_head "@"%char email else email in
      create_user email name
  | Some u => ret u
  end.

End UserService.

(** ** main.py *)

(** [TrailCreate]: the request body of the trail routes. *)
Record TrailCreate : Type := {
  body_TrailName : string;
  body_Description : option string
}.

Record LoginResponse : Type := {
  access_token : jwt.Token;
  token_type : string;
  user_summary : UserDict
}.

Section Handlers.

Variable settings : Settings.
(** The identity service, as [requests.post] sees it: url, email and
    password in, a reply or no reply out. *)
Variable post : string -> string -> string -> HttpReply.
(** The clock at the time of the request. *)
Variable now : Z.

Definition catches_Exception (e : exn) : bool := true.

Definition login (username password : string) : DB LoginResponse :=
  is_verified <-
    lift (AuthUtils.verify_plymouth_credentials post settings username password) ;;
  if negb is_verified then
    raise (HTTPException 401 "Incorrect email or password")
  else
    try_except
      (user <- UserService.get_or_create_user username true ;;
       let access_token_expires :=
         timedelta_minutes (ACCESS_TOKEN_EXPIRE_MINUTES settings) in
       token <- lift (AuthUtils.create_access_token settings
                        [("sub", JStr username);
                         ("user_id", JInt (user_id user));
                         ("name", JStr (name user))]
                        (Some access_token_expires) now) ;;
       ret {| access_token := token;
              token_type := "bearer";
              user_summary := {| user_id := user_id user;
                                 name := name user;
                                 email := email user |} |})
      catches_Exception
      (fun e => raise (HTTPException 500
                         ("Error during user management: " ++ str e)%string)).

Definition credentials_exception : exn :=
  HTTPException 401 "Could not validate credentials".

Definition get_current_user (token : jwt.Token) : DB UserDict :=
  try_except
    (payload <- lift (AuthUtils.decode_token settings token now) ;;
     match dict_get "sub" payload with
     | None => raise credentials_exception
     | Some (JStr email) =>
         user <- UserService.get_user_by_email email ;;
         match user with
         | None => raise credentials_exception
         | Some u => ret u
         end
     | Some (JInt _) =>
         (* an integer compared with the [Email] column *)
         raise (PyodbcError "Conversion failed")
     end)
    catches_Exception
    (fun _ => raise credentials_exception).

(** [dict(zip(columns, row))]; [zip] refuses [None]. *)
Definition row_dict (row : option TrailRow) : DB TrailRow :=
  match row with
  | Some t => ret t
  | None => raise (TypeError "zip argument #2 must support iteration")
  end.

Definition get_trails : DB (list TrailRow) :=
  execute SelectAllTrails Trail_table.

Definition get_trail (trail_id : Z) : DB TrailRow :=
  trail <- execute (SelectTrailByID trail_id) (trail_by_id trail_id) ;;
  match trail with
  | None => raise (HTTPException 404 "Trail not found")
  | Some t => ret t
  end.

Definition create_trail (trail : TrailCreate) (current_user : UserDict)
  : DB TrailRow :=
  execute (ExecAddNewTrail (body_TrailName trail) (body_Description trail)
                           now (user_id current_user)) (fun _ => tt) ;;;
  commit ;;;
  new_trail <- execute SelectTopTrail top_trail ;;
  row_dict new_trail.

Definition update_trail (trail_id : Z) (trail : TrailCreate)
           (current_user : UserDict) : DB TrailRow :=
  existing_trail <- execute (SelectCreatedBy trail_id)
                            (fun s => option_map CreatedBy (trail_by_id trail_id s)) ;;
  match existing_trail with
  | None => raise (HTTPException 404 "Trail not found")
  | Some owner =>
      if negb (owner =? user_id current_user) then
        raise (HTTPException 403 "Not authorized to update this trail")
      else
        execute (ExecUpdateTrail trail_id (body_TrailName trail)
                                 (body_Description trail)) (fun _ => tt) ;;;
        commit ;;;
        updated_trail <- execute (SelectTrailByID trail_id) (trail_by_id trail_id) ;;
        row_dict updated_trail
  end.

Definition delete_trail (trail_id : Z) (current_user : UserDict) : DB string :=
  existing_trail <- execute (SelectCreatedBy trail_id)
                            (fun s => option_map CreatedBy (trail_by_id trail_id s)) ;;
  match existing_trail with
  | None => raise (HTTPException 404 "Trail not found")
  | Some owner =>
      if negb (owner =? user_id current_user) then
        raise (HTTPException 403 "Not authorized to delete this trail")
      else
        execute (ExecDeleteTrail trail_id) (fun _ => tt) ;;;
        commit ;;;
        ret "Trail deleted successfully"
  end.

(** The routes with their [Depends(get_current_user)] guard. *)
Definition POST_api_trails (token : jwt.Token) (trail : TrailCreate)
  : DB TrailRow :=
  current_user <- get_current_user token ;;
  create_trail trail current_user.

Definition PUT_api_trails (token : jwt.Token) (trail_id : Z)
           (trail : TrailCreate) : DB TrailRow :=
  current_user <- get_current_user token ;;
  update_trail trail_id trail current_user.

Definition DELETE_api_trails (token : jwt.Token) (trail_id : Z) : DB string :=
  current_user <- get_current_user token ;;
  delete_trail trail_id current_user.

End Handlers.

(** ** Vocabulary of the properties *)

Definition Expired : exn := HTTPException 401 "Token has expired".
Definition Invalid : exn := HTTPException 401 "Could not validate credentials".

(** The claim set that [login] hands to [create_access_token]. *)
Definition login_claims (username : string) (u : UserDict) : Claims :=
  [("sub", JStr username); ("user_id", JInt (user_id u)); ("name", JStr (name u))].

(** The token names the configured algorithm, one the library knows. *)
Definition algorithm_accepted (settings : Settings) (t : jwt.JWS) : bool :=
  jwt.mem (jwt.header_alg t) [ALGORITHM settings]
  && jwt.mem (jwt.header_alg t) jwt.supported_algorithms.

(** The signature is the one the configured secret gives. *)
Definition signature_matches (settings : Settings) (t : jwt.JWS) : bool :=
  jwt.MAC_eqb (jwt.signature t)
              (jwt.Mac (SECRET_KEY settings) (jwt.header_alg t) (jwt.payload t)).

(** [UserID + 1] of the greatest row, 1 on an empty table. *)
Definition next_UserID (s : Store) : Z :=
  match max_UserID s with
  | None => 1
  | Some m => m + 1
  end.

Definition user_dict (r : UserRow) : UserDict :=
  {| user_id := UserID r; name := Name r; email := Email r |}.

Definition SelectOwner (trail_id : Z) : Call := Execute (SelectCreatedBy trail_id).

(** Some call of the record sends a statement that writes. *)
Definition sends_write (log : list Call) : bool :=
  existsb (fun c => match c with
                    | Execute sql => is_write sql
                    | _ => false
                    end) log.

Inductive Request : Type :=
| PostToken (username password : string)
| GetTrails
| GetTrail (trail_id : Z)
| PostTrail (token : jwt.Token) (body : TrailCreate)
| PutTrail (token : jwt.Token) (trail_id : Z) (body : TrailCreate)
| DeleteTrailRequest (token : jwt.Token) (trail_id : Z).

(** A request as it reaches the service: when it arrives and how the driver
    behaves while it is served. *)
Record Arrival : Type := {
  request : Request;
  arrives_at : Z;
  driver : list (option string)
}.

Definition store_after {A : Type} (x : outcome A * Store * list Call) : Store :=
  snd (fst x).

Section Service.

Variable settings : Settings.
Variable post : string -> string -> string -> HttpReply.

(** The store once the request is served and its connection closed. *)
Definition serve (s : Store) (a : Arrival) : Store :=
  match request a with
  | PostToken username password =>
      store_after (run (login settings post (arrives_at a) username password)
                       s (driver a))
  | GetTrails => store_after (run get_trails s (driver a))
  | GetTrail trail_id => store_after (run (get_trail trail_id) s (driver a))
  | PostTrail token body =>
      store_after (run (POST_api_trails settings (arrives_at a) token body)
                       s (driver a))
  | PutTrail token trail_id body =>
      store_after (run (PUT_api_trails settings (arrives_at a) token trail_id body)
                       s (driver a))
  | DeleteTrailRequest token trail_id =>
      store_after (run (DELETE_api_trails settings (arrives_at a) token trail_id)
                       s (driver a))
  end.

Definition serve_all (s : Store) (arrivals : list Arrival) : Store :=
  fold_left serve arrivals s.

End Service.

(** What one request can do to the store. *)
Inductive store_step (s : Store) : Store -> Prop :=
| step_nothing : store_step s s
| step_user new_id nm e : store_step s (insert_user new_id nm e s)
| step_add nm d date owner : store_step s (AddNewTrail nm d date owner s)
| step_update i nm d : store_step s (UpdateTrail i nm d s)
| step_delete i : store_step s (DeleteTrail i s).

(** Every [TrailID] in the table was handed out by the identity counter. *)
Definition ids_below_counter (s : Store) : Prop :=
  forall t, In t (Trail_table s) -> TrailID t < next_TrailID s.

(** A handler that leaves both the store and the open transaction alone. *)
Definition reads_only {A : Type} (h : DB A) : Prop :=
  forall c r c', h c = (r, c') -> durable c' = durable c /\ txn c' = txn c.

(** A handler that, started with nothing pending, ends with the store as it
    was or moved by one step. *)
Definition one_step {A : Type} (h : DB A) : Prop :=
  forall c r c', txn c = durable c -> h c = (r, c') ->
                 store_step (durable c) (durable c').

(** As long as trail [i] is there, it has owner [o] and creation time [d]. *)
Definition keeps (i o d : Z) (s : Store) : Prop :=
  i < next_TrailID s /\
  forall t, trail_by_id i s = Some t -> CreatedBy t = o /\ DateCreated t = d.

Definition new_trail_row (s : Store) (body : TrailCreate) (now owner : Z)
  : TrailRow :=
  {| TrailID := next_TrailID s;
     TrailName := body_TrailName body;
     Description := body_Description body;
     DateCreated := now;
     CreatedBy := owner |}.

Definition generic_500 (e : exn) : exn :=
  HTTPException 500 ("Error during user management: " ++ str e)%string.

Definition verified_reply : HttpReply :=
  Response 200 (Json (JArray [JString "Verified"; JString "True"])).

Definition settings_with_algorithm (alg : string) : Settings :=
  {| SECRET_KEY := SECRET_KEY default_settings;
     ALGORITHM := alg;
     ACCESS_TOKEN_EXPIRE_MINUTES := ACCESS_TOKEN_EXPIRE_MINUTES default_settings;
     PLYMOUTH_AUTH_URL := PLYMOUTH_AUTH_URL default_settings |}.

Definition empty_store : Store :=
  {| User_table := []; Trail_table := []; next_TrailID := 1 |}.

Definition coast_path : TrailCreate :=
  {| body_TrailName := "Coast path"; body_Description := None |}.

Definition first_user : UserDict :=
  {| user_id := 1; name := "new"; email := "new@x.com" |}.

Definition one_user_store : Store :=
  insert_user 1 "new" "new@x.com" empty_store.

Definition second_user : UserDict :=
  {| user_id := 2; name := "b"; email := "b@x.com" |}.

Definition moor_walk : TrailCreate :=
  {| body_TrailName := "Moor walk"; body_Description := Some "Across the moor" |}.

(** The store with one trail, created by the first user at time 900. *)
Definition one_trail_store : Store :=
  AddNewTrail "Moor walk" (Some "Across the moor") 900 1 one_user_store.

(** The token that the default settings issue to a user, expiring at [exp]. *)
Definition token_of (u : UserDict) (exp : Z) : jwt.Token :=
  let claims := dict_update "exp" (JInt exp) (login_claims (email u) u) in
  jwt.Compact {| jwt.header_alg := ALGORITHM default_settings;
                 jwt.payload := claims;
                 jwt.signature :=
                   jwt.Mac (SECRET_KEY default_settings)
                           (ALGORITHM default_settings) claims |}.

(** ** main.py: the routes that only read the user *)

(** The answer of [/protected]. *)
Record ProtectedResponse : Type := {
  message : string;
  user_email : string
}.

Section ReadRoutes.

Variable settings : Settings.
Variable now : Z.

Definition read_users_me (current_user : UserDict) : DB UserDict :=
  ret current_user.

Definition protected_route (current_user : UserDict) : DB ProtectedResponse :=
  ret {| message := "You are authenticated";
         user_email := email current_user |}.

Definition GET_users_me (token : jwt.Token) : DB UserDict :=
  current_user <- get_current_user settings now token ;;
  read_users_me current_user.

Definition GET_protected (token : jwt.Token) : DB ProtectedResponse :=
  current_user <- get_current_user settings now token ;;
  protected_route current_user.

End ReadRoutes.

(** ** Vocabulary of the properties of the user table *)

(** The row that [create_user] inserts. *)
Definition sentinel_row (new_id : Z) (nm e : string) : UserRow :=
  {| UserID := new_id; Name := nm; Email := e; Password := "external_auth" |}.

(** What one request can do to the user table: nothing, or append the row
    of a user whose email no row had, under the next id. *)
Inductive user_step (s s' : Store) : Prop :=
| users_same : User_table s' = User_table s -> user_step s s'
| users_new (nm e : string) :
    user_by_email e s = None ->
    User_table s' = User_table s ++ [sentinel_row (next_UserID s) nm e] ->
    user_step s s'.

Definition users_one_step {A : Type} (h : DB A) : Prop :=
  forall c r c', txn c = durable c -> h c = (r, c') ->
                 user_step (durable c) (durable c').

(** No two rows share a [UserID], no two rows share an [Email]. *)
Definition users_unique (s : Store) : Prop :=
  NoDup (map UserID (User_table s)) /\ NoDup (map Email (User_table s)).


Definition confirmation : JSON := JArray [JString "Verified"; JString "True"].

(** The name that [login] gives to a user it creates. *)
Definition local_part (e : string) : string := split_head "@"%char e.

(** * Properties *)

(** ** Dictionaries and symbolic signatures *)

Lemma JVal_eqb_refl (v : JVal) : JVal_eqb v v = true.
Proof.
  destruct v; simpl; [apply String.eqb_refl | apply Z.eqb_refl].
Qed.

Lemma Claims_eqb_refl (c : Claims) : Claims_eqb c c = true.
Proof.
  induction c as [|[k v] c IH]; simpl; trivial.
  now rewrite String.eqb_refl, JVal_eqb_refl, IH.
Qed.

Lemma JVal_eqb_eq (a b : JVal) : JVal_eqb a b = true <-> a = b.
Proof.
  destruct a, b; simpl; split; intro H; try discriminate.
  - apply String.eqb_eq in H; congruence.
  - injection H as ->; apply String.eqb_refl.
  - apply Z.eqb_eq in H; congruence.
  - injection H as ->; apply Z.eqb_refl.
Qed.

Lemma Claims_eqb_eq (a b : Claims) : Claims_eqb a b = true <-> a = b.
Proof.
  split; [|intros ->; apply Claims_eqb_refl].
  revert b; induction a as [|[k v] a IH]; intros [|[k' v'] b]; simpl;
    trivial; try discriminate.
  intro H. apply andb_prop in H as [H Hab]. apply andb_prop in H as [Hk Hv].
  apply String.eqb_eq in Hk. apply JVal_eqb_eq in Hv. apply IH in Hab.
  congruence.
Qed.

Lemma MAC_eqb_eq (a b : jwt.MAC) : jwt.MAC_eqb a b = true <-> a = b.
Proof.
  destruct a as [k g p|x], b as [k' g' p'|y]; simpl; split; intro H;
    try discriminate.
  - apply andb_prop in H as [H Hp]. apply andb_prop in H as [Hk Hg].
    apply String.eqb_eq in Hk, Hg. apply Claims_eqb_eq in Hp. congruence.
  - injection H as -> -> ->.
    now rewrite !String.eqb_refl, Claims_eqb_refl.
  - apply String.eqb_eq in H; congruence.
  - injection H as ->; apply String.eqb_refl.
Qed.



(** ** The external credential check *)

Section Verifier.

Variable settings : Settings.
Variable post : string -> string -> string -> HttpReply.
Variables email password : string.

Let reply := post (PLYMOUTH_AUTH_URL settings) email password.
Let verdict := AuthUtils.verify_plymouth_credentials post settings email password.

Lemma is_verified_list_spec (doc : JSON) :
  is_verified_list doc = true <->
  doc = JArray [JString "Verified"; JString "True"].
Proof.
  split.
  - destruct doc as [| | | |items|]; simpl; try discriminate.
    destruct items as [|[| | |a| |] [|[| | |b| |] [|? ?]]]; try discriminate.
    intro H. apply andb_prop in H as [Ha Hb].
    apply String.eqb_eq in Ha, Hb. now subst.
  - intros ->. reflexivity.
Qed.

Lemma verify_true_iff :
  verdict = Return true <->
  reply = Response 200 (Json (JArray [JString "Verified"; JString "True"])).
Proof.
  unfold verdict, AuthUtils.verify_plymouth_credentials. fold reply.
  destruct reply as [why|code [text|doc]]; simpl.
  - split; discriminate.
  - destruct (code =? 200); simpl; split; discriminate.
  - destruct (code =? 200) eqn:E; simpl.
    + apply Z.eqb_eq in E; subst code. split; intro H.
      * injection H as H. apply is_verified_list_spec in H. now subst.
      * injection H as ->. reflexivity.
    + split; [discriminate|]. intro H. injection H as -> _.
      discriminate.
Qed.




End Verifier.

(** C2.  The credential check does not answer [False] for every reply other
    than the confirmation: a reply with status 200 whose body is not JSON makes
    [response.json()] raise inside the [try], the [except] clause takes it for
    a failure to connect, and the caller gets a 503. *)
Theorem verify_non_json_reply_is_503 :
  AuthUtils.verify_plymouth_credentials
    (fun _ _ _ => Response 200 (NotJson "<html>Service temporarily down</html>"))
    default_settings "student@plymouth.ac.uk" "secret"
  = Raise (HTTPException 503 "Could not connect to authentication service").
Proof. reflexivity. Qed.

(** ** The token codec *)

Lemma mem_singleton (x y : string) : jwt.mem x [y] = true <-> x = y.
Proof.
  unfold jwt.mem; simpl. rewrite orb_false_r. apply String.eqb_eq.
Qed.

Lemma create_access_token_issues (settings : Settings) (data : Claims)
      (ttl utcnow : Z) :
  jwt.mem (ALGORITHM settings) jwt.supported_algorithms = true ->
  ttl <> 0 ->
  AuthUtils.create_access_token settings data (Some ttl) utcnow =
  Return (jwt.Compact
            {| jwt.header_alg := ALGORITHM settings;
               jwt.payload := dict_update "exp" (JInt (utcnow + ttl)) data;
               jwt.signature :=
                 jwt.Mac (SECRET_KEY settings) (ALGORITHM settings)
                         (dict_update "exp" (JInt (utcnow + ttl)) data) |}).
Proof.
  intros Halg Httl. unfold AuthUtils.create_access_token, jwt.encode.
  apply Z.eqb_neq in Httl. now rewrite Httl, Halg.
Qed.

Lemma decode_token_authentic (settings : Settings) (t : jwt.JWS) (now : Z) :
  algorithm_accepted settings t = true ->
  signature_matches settings t = true ->
  AuthUtils.decode_token settings (jwt.Compact t) now =
  match jwt.validate_exp (jwt.payload t) now with
  | Return p => Return p
  | Raise ExpiredSignatureError => Raise Expired
  | Raise _ => Raise Invalid
  end.
Proof.
  unfold algorithm_accepted, signature_matches, AuthUtils.decode_token, jwt.decode.
  intros -> ->. simpl.
  unfold jwt.validate_exp.
  destruct (dict_get "exp" (jwt.payload t)) as [[s|exp]|]; trivial.
  now destruct (exp <? now).
Qed.

(** C3.  A token issued for the claim set of a login, with a positive time
    to live, decodes under the same settings at any instant before its expiry;
    the decoded claims carry the subject, user id and name that were embedded,
    and an expiry equal to the time of issue plus the time to live. *)
Theorem issued_token_round_trip (settings : Settings) (username : string)
        (u : UserDict) (ttl issued_at : Z) :
  jwt.mem (ALGORITHM settings) jwt.supported_algorithms = true ->
  0 < ttl ->
  exists token,
    AuthUtils.create_access_token settings (login_claims username u)
                                  (Some ttl) issued_at = Return token /\
    forall now, now < issued_at + ttl ->
      exists payload,
        AuthUtils.decode_token settings token now = Return payload /\
        dict_get "sub" payload = Some (JStr username) /\
        dict_get "user_id" payload = Some (JInt (user_id u)) /\
        dict_get "name" payload = Some (JStr (name u)) /\
        dict_get "exp" payload = Some (JInt (issued_at + ttl)).
Proof.
  intros Halg Httl. eexists. split.
  - apply create_access_token_issues; [exact Halg | lia].
  - intros now Hnow. eexists. split.
    + rewrite decode_token_authentic.
      * unfold jwt.validate_exp; simpl.
        assert (E : (issued_at + ttl <? now) = false) by (apply Z.ltb_ge; lia).
        rewrite E. reflexivity.
      * unfold algorithm_accepted; simpl jwt.header_alg.
        rewrite Halg, andb_true_r. now apply mem_singleton.
      * apply MAC_eqb_eq. reflexivity.
    + repeat split; reflexivity.
Qed.

Lemma issued_token_round_trip_witness :
  exists token,
    AuthUtils.create_access_token default_settings
      (login_claims "new@x.com" {| user_id := 1; name := "new"; email := "new@x.com" |})
      (Some 1800) 1000 = Return token /\
    forall now, now < 1000 + 1800 ->
      exists payload,
        AuthUtils.decode_token default_settings token now = Return payload /\
        dict_get "sub" payload = Some (JStr "new@x.com") /\
        dict_get "user_id" payload = Some (JInt 1) /\
        dict_get "name" payload = Some (JStr "new") /\
        dict_get "exp" payload = Some (JInt (1000 + 1800)).
Proof.
  apply (issued_token_round_trip default_settings "new@x.com"
           {| user_id := 1; name := "new"; email := "new@x.com" |} 1800 1000).
  - reflexivity.
  - lia.
Defined.

Lemma decode_token_cases (settings : Settings) (token : jwt.Token) (now : Z) :
  AuthUtils.decode_token settings token now =
  match token with
  | jwt.Malformed _ => Raise Invalid
  | jwt.Compact t =>
      if negb (algorithm_accepted settings t) then Raise Invalid
      else if negb (signature_matches settings t) then Raise Invalid
      else match dict_get "exp" (jwt.payload t) with
           | None => Return (jwt.payload t)
           | Some (JStr _) => Raise Invalid
           | Some (JInt exp) =>
               if exp <? now then Raise Expired else Return (jwt.payload t)
           end
  end.
Proof.
  destruct token as [raw|t]; [reflexivity|].
  destruct (algorithm_accepted settings t) eqn:Ea.
  - destruct (signature_matches settings t) eqn:Es.
    + rewrite decode_token_authentic by assumption. simpl.
      unfold jwt.validate_exp.
      destruct (dict_get "exp" (jwt.payload t)) as [[s|exp]|]; trivial.
      now destruct (exp <? now).
    + unfold AuthUtils.decode_token, jwt.decode.
      fold (algorithm_accepted settings t). fold (signature_matches settings t).
      now rewrite Ea, Es.
  - unfold AuthUtils.decode_token, jwt.decode.
    fold (algorithm_accepted settings t). now rewrite Ea.
Qed.

(** C4.  Validation of a token that passes the structure, algorithm and
    signature checks fails with the Expired kind exactly when the current time
    exceeds the embedded expiry, and nothing else fails with that kind; a
    malformed token, a token naming another algorithm and a token whose
    signature does not match each fail with the Invalid kind; every failure of
    either kind reaches the caller with status 401. *)
Theorem decode_token_failure_kinds (settings : Settings) (token : jwt.Token)
        (now : Z) :
  (AuthUtils.decode_token settings token now = Raise Expired <->
   exists t exp,
     token = jwt.Compact t /\
     algorithm_accepted settings t = true /\
     signature_matches settings t = true /\
     dict_get "exp" (jwt.payload t) = Some (JInt exp) /\
     exp < now) /\
  ((exists raw, token = jwt.Malformed raw) \/
   (exists t, token = jwt.Compact t /\ algorithm_accepted settings t = false) \/
   (exists t, token = jwt.Compact t /\ signature_matches settings t = false) ->
   AuthUtils.decode_token settings token now = Raise Invalid) /\
  (forall e, AuthUtils.decode_token settings token now = Raise e ->
     (e = Expired \/ e = Invalid) /\
     http_status (@Raise Claims e) = 401).
Proof.
  rewrite decode_token_cases. split; [|split].
  - split.
    + destruct token as [raw|t]; [discriminate|].
      destruct (algorithm_accepted settings t) eqn:Ea; [|discriminate].
      destruct (signature_matches settings t) eqn:Es; [|discriminate].
      simpl. destruct (dict_get "exp" (jwt.payload t)) as [[s|exp]|] eqn:Ex;
        try discriminate.
      destruct (exp <? now) eqn:El; [|discriminate].
      intros _. exists t, exp. apply Z.ltb_lt in El. now repeat split.
    + intros (t & exp & -> & -> & -> & -> & Hlt). simpl.
      apply Z.ltb_lt in Hlt. now rewrite Hlt.
  - intros [[raw ->]|[(t & -> & ->)|(t & -> & Hs)]]; trivial.
    rewrite Hs. now destruct (algorithm_accepted settings t).
  - intros e. destruct token as [raw|t].
    + intros [= <-]. split; [now right | reflexivity].
    + destruct (algorithm_accepted settings t); simpl;
        [|intros [= <-]; split; [now right | reflexivity]].
      destruct (signature_matches settings t); simpl;
        [|intros [= <-]; split; [now right | reflexivity]].
      destruct (dict_get "exp" (jwt.payload t)) as [[s|exp]|];
        try discriminate.
      * intros [= <-]; split; [now right | reflexivity].
      * destruct (exp <? now); [|discriminate].
        intros [= <-]; split; [now left | reflexivity].
Qed.

(** ** The user directory *)

Ltac unfold_db :=
  unfold run, connect, try_except, bind, execute, commit, rollback,
    driver_call, ret, raise, lift in *.

(** Every call still to come either raises or goes through: split the
    schedule for as long as the goal consults it. *)
Ltac driver_cases :=
  repeat match goal with
         | |- context [match ?l with [] => _ | _ :: _ => _ end] =>
             is_var l; destruct l as [|[?|] ?]; simpl
         end.

Lemma fold_max_spec (rows : list UserRow) (acc : option Z) :
  let step := fun (a : option Z) (u : UserRow) =>
                match a with
                | None => Some (UserID u)
                | Some m => Some (Z.max m (UserID u))
                end in
  match fold_left step rows acc with
  | None => rows = [] /\ acc = None
  | Some m =>
      (acc = Some m \/ In m (map UserID rows)) /\
      (forall a, acc = Some a -> a <= m) /\
      (forall u, In u rows -> UserID u <= m)
  end.
Proof.
  intro step. revert acc.
  induction rows as [|r rows IH]; intro acc; simpl.
  - destruct acc as [a|]; [|now split].
    split; [now left|]. split; [intros ? [= <-]; lia | contradiction].
  - specialize (IH (step acc r)).
    destruct (fold_left step rows (step acc r)) as [m|].
    + destruct IH as (Hin & Hacc & Hrows). split; [|split].
      * destruct Hin as [Hin|Hin]; [|now right; right].
        destruct acc as [a|]; simpl in Hin; injection Hin as <-.
        -- destruct (Z.max_spec a (UserID r)) as [[_ ->]|[_ ->]];
             [now right; left | now left].
        -- now right; left.
      * intros a ->. specialize (Hacc _ eq_refl). simpl in Hacc. lia.
      * intros u [<-|Hu]; [|now apply Hrows].
        destruct acc as [a|]; simpl in Hacc;
          specialize (Hacc _ eq_refl); lia.
    + destruct IH as [_ Hstep]. destruct acc; discriminate.
Qed.

Lemma max_UserID_empty (s : Store) :
  max_UserID s = None <-> User_table s = [].
Proof.
  unfold max_UserID. split.
  - intro H. pose proof (fold_max_spec (User_table s) None) as Hs.
    simpl in Hs. rewrite H in Hs. tauto.
  - now intros ->.
Qed.

Lemma max_UserID_greatest (s : Store) (m : Z) :
  max_UserID s = Some m ->
  In m (map UserID (User_table s)) /\
  forall u, In u (User_table s) -> UserID u <= m.
Proof.
  unfold max_UserID. intro H.
  pose proof (fold_max_spec (User_table s) None) as Hs.
  simpl in Hs. rewrite H in Hs. destruct Hs as ([Hs|Hs] & _ & Hle).
  - discriminate.
  - now split.
Qed.

Lemma next_UserID_fresh (s : Store) :
  ~ In (next_UserID s) (map UserID (User_table s)).
Proof.
  unfold next_UserID. intro Hin. apply in_map_iff in Hin as (u & Hu & Hin).
  destruct (max_UserID s) as [m|] eqn:E.
  - apply max_UserID_greatest in E as [_ Hle]. specialize (Hle _ Hin). lia.
  - apply max_UserID_empty in E. rewrite E in Hin. contradiction.
Qed.

Lemma create_user_runs (s : Store) (email name : string) :
  run (UserService.create_user email name) s [] =
  (Return {| user_id := next_UserID s; name := name; email := email |},
   insert_user (next_UserID s) name email s,
   [Execute SelectMaxUserID;
    Execute (InsertUser (next_UserID s) name email);
    Commit]).
Proof. reflexivity. Qed.

(** C7.  User creation assigns the greatest [UserID] of the table plus one,
    and 1 on an empty table; the row it inserts carries the sentinel password;
    the id is not the id of any row already there, and it is positive whenever
    the ids already there are. *)
Theorem create_user_assigns_fresh_id (s : Store) (email name : string) :
  (exists new_id,
     run (UserService.create_user email name) s [] =
       (Return {| user_id := new_id; name := name; email := email |},
        insert_user new_id name email s,
        [Execute SelectMaxUserID; Execute (InsertUser new_id name email); Commit]) /\
     User_table (insert_user new_id name email s) =
       User_table s ++ [{| UserID := new_id; Name := name; Email := email;
                           Password := "external_auth" |}] /\
     (User_table s = [] -> new_id = 1) /\
     (User_table s <> [] ->
      exists m, In m (map UserID (User_table s)) /\
                (forall u, In u (User_table s) -> UserID u <= m) /\
                new_id = m + 1) /\
     ~ In new_id (map UserID (User_table s)) /\
     ((forall u, In u (User_table s) -> 0 < UserID u) -> 0 < new_id)).
Proof.
  exists (next_UserID s). split; [apply create_user_runs|].
  split; [reflexivity|]. split; [|split; [|split]].
  - intro Hempty. apply max_UserID_empty in Hempty.
    unfold next_UserID. now rewrite Hempty.
  - intro Hne. unfold next_UserID.
    destruct (max_UserID s) as [m|] eqn:E.
    + exists m. apply max_UserID_greatest in E as [Hin Hle]. now repeat split.
    + apply max_UserID_empty in E. contradiction.
  - apply next_UserID_fresh.
  - intro Hpos. unfold next_UserID.
    destruct (max_UserID s) as [m|] eqn:E; [|lia].
    apply max_UserID_greatest in E as [Hin _].
    apply in_map_iff in Hin as (u & <- & Hin). specialize (Hpos _ Hin). lia.
Qed.

Lemma find_app_last (f : UserRow -> bool) (rows : list UserRow) (r : UserRow) :
  find f (rows ++ [r]) =
  match find f rows with
  | Some x => Some x
  | None => if f r then Some r else None
  end.
Proof.
  induction rows as [|x rows IH]; simpl; [reflexivity|].
  now destruct (f x).
Qed.

Lemma user_by_email_found (s : Store) (e : string) (r : UserRow) :
  user_by_email e s = Some r -> In r (User_table s) /\ Email r = e.
Proof.
  unfold user_by_email. intro H. apply find_some in H as [Hin He].
  apply String.eqb_eq in He. now split.
Qed.

Lemma user_by_email_after_insert (s : Store) (e nm : string) (new_id : Z) :
  user_by_email e s = None ->
  user_by_email e (insert_user new_id nm e s) =
  Some {| UserID := new_id; Name := nm; Email := e; Password := "external_auth" |}.
Proof.
  unfold user_by_email, insert_user; simpl. intro H.
  rewrite find_app_last, H. simpl. now rewrite String.eqb_refl.
Qed.

(** A second look-up of a stored user is a single [SELECT] and changes
    nothing. *)
Lemma get_or_create_user_existing (s : Store) (e : string) (flag : bool)
      (r : UserRow) :
  user_by_email e s = Some r ->
  run (UserService.get_or_create_user e flag) s [] =
  (Return (user_dict r), s, [Execute (SelectUserByEmail e)]).
Proof.
  intro H. unfold UserService.get_or_create_user, UserService.get_user_by_email.
  unfold_db. simpl. now rewrite H.
Qed.

Lemma get_or_create_user_absent (s : Store) (e : string) (flag : bool) :
  user_by_email e s = None ->
  let nm := if flag then split_head "@"%char e else e in
  run (UserService.get_or_create_user e flag) s [] =
  (Return {| user_id := next_UserID s; name := nm; email := e |},
   insert_user (next_UserID s) nm e s,
   [Execute (SelectUserByEmail e);
    Execute SelectMaxUserID;
    Execute (InsertUser (next_UserID s) nm e);
    Commit]).
Proof.
  intro H. unfold UserService.get_or_create_user, UserService.get_user_by_email.
  unfold_db. simpl. now rewrite H.
Qed.

(** Whatever the driver did during a call that returned a user, the store
    it leaves has that user as the first row with the email. *)
Lemma get_or_create_user_stored (s s' : Store) (e : string) (flag : bool)
      (schedule : list (option string)) (u : UserDict) (log : list Call) :
  run (UserService.get_or_create_user e flag) s schedule = (Return u, s', log) ->
  exists r, user_by_email e s' = Some r /\ user_dict r = u.
Proof.
  unfold UserService.get_or_create_user, UserService.get_user_by_email,
    UserService.create_user.
  unfold_db. simpl.
  destruct (user_by_email e s) as [r|] eqn:Hr.
  - driver_cases; intro H; try discriminate;
      injection H as <- <- _; now exists r.
  - driver_cases; intro H; try discriminate;
      injection H as <- <- _; simpl;
      (eexists; split;
       [apply user_by_email_after_insert; exact Hr | reflexivity]).
Qed.

Example split_head_new : split_head "@"%char "new@x.com" = "new".
Proof. reflexivity. Qed.

Example split_head_no_separator : split_head "@"%char "nobody" = "nobody".
Proof. reflexivity. Qed.

Example split_head_two_separators : split_head "@"%char "a@b@c" = "a".
Proof. reflexivity. Qed.

Lemma split_head_local_part (local domain : string) :
  ~ In "@"%char (list_ascii_of_string local) ->
  split_head "@"%char (local ++ String "@"%char domain)%string = local.
Proof.
  induction local as [|a local IH]; simpl; intro Hno; [reflexivity|].
  destruct (Ascii.eqb a "@"%char) eqn:E.
  - apply Ascii.eqb_eq in E. exfalso. apply Hno. now left.
  - rewrite IH; [reflexivity|]. intro Hin. apply Hno. now right.
Qed.

(** C6.  When no user has the email, [get_or_create_user] creates one, named
    by what precedes the first '@' of the email when the flag is set and by
    the whole email otherwise; every later call with that email, whatever its
    flag, returns the same record, runs one [SELECT] and leaves the store as it
    is. *)
Theorem get_or_create_user_creates_once (s : Store) (e : string) (flag : bool) :
  user_by_email e s = None ->
  exists u s1 log,
    run (UserService.get_or_create_user e flag) s [] = (Return u, s1, log) /\
    name u = (if flag then split_head "@"%char e else e) /\
    email u = e /\
    (forall local domain,
       flag = true -> e = (local ++ String "@"%char domain)%string ->
       ~ In "@"%char (list_ascii_of_string local) -> name u = local) /\
    (exists r, user_by_email e s1 = Some r /\ user_dict r = u) /\
    forall flag',
      run (UserService.get_or_create_user e flag') s1 [] =
      (Return u, s1, [Execute (SelectUserByEmail e)]).
Proof.
  intro Habsent.
  pose proof (get_or_create_user_absent s e flag Habsent) as Hrun.
  simpl in Hrun.
  destruct (get_or_create_user_stored _ _ _ _ _ _ _ Hrun) as (r & Hr & Hu).
  do 3 eexists. split; [exact Hrun|]. simpl.
  split; [reflexivity|]. split; [reflexivity|]. split; [|split].
  - intros local domain -> -> Hno. now apply split_head_local_part.
  - now exists r.
  - intro flag'. rewrite (get_or_create_user_existing _ _ flag' r Hr).
    now rewrite Hu.
Qed.

Lemma get_or_create_user_creates_once_witness :
  exists u s1 log,
    run (UserService.get_or_create_user "new@x.com" true)
        {| User_table := []; Trail_table := []; next_TrailID := 1 |} [] =
      (Return u, s1, log) /\
    name u = "new" /\
    email u = "new@x.com" /\
    (forall local domain,
       true = true -> "new@x.com" = (local ++ String "@"%char domain)%string ->
       ~ In "@"%char (list_ascii_of_string local) -> name u = local) /\
    (exists r, user_by_email "new@x.com" s1 = Some r /\ user_dict r = u) /\
    forall flag',
      run (UserService.get_or_create_user "new@x.com" flag') s1 [] =
      (Return u, s1, [Execute (SelectUserByEmail "new@x.com")]).
Proof.
  apply (get_or_create_user_creates_once
           {| User_table := []; Trail_table := []; next_TrailID := 1 |}
           "new@x.com" true).
  reflexivity.
Defined.

(** Idempotence does not depend on how the first call went: if it returned
    a user, under any schedule of driver failures and from any store, the
    next call returns the same user. *)
Lemma get_or_create_user_idempotent (s s1 : Store) (e : string) (flag flag' : bool)
      (schedule : list (option string)) (u : UserDict) (log : list Call) :
  run (UserService.get_or_create_user e flag) s schedule = (Return u, s1, log) ->
  run (UserService.get_or_create_user e flag') s1 [] =
  (Return u, s1, [Execute (SelectUserByEmail e)]).
Proof.
  intro H. apply get_or_create_user_stored in H as (r & Hr & <-).
  now apply get_or_create_user_existing.
Qed.

(** ** The trail handlers *)

Lemma trail_by_id_found (s : Store) (i : Z) (t : TrailRow) :
  trail_by_id i s = Some t -> In t (Trail_table s) /\ TrailID t = i.
Proof.
  unfold trail_by_id. intro H. apply find_some in H as [Hin Hi].
  apply Z.eqb_eq in Hi. now split.
Qed.

Lemma trail_by_id_UpdateTrail (s : Store) (i j : Z) (nm : string)
      (d : option string) :
  trail_by_id j (UpdateTrail i nm d s) =
  if j =? i then option_map (set_name_description nm d) (trail_by_id j s)
  else trail_by_id j s.
Proof.
  unfold trail_by_id, UpdateTrail; simpl.
  induction (Trail_table s) as [|t rows IH]; simpl.
  - now destruct (j =? i).
  - destruct (TrailID t =? i) eqn:Ei; simpl.
    + apply Z.eqb_eq in Ei. rewrite Ei.
      destruct (i =? j) eqn:Ej.
      * apply Z.eqb_eq in Ej. subst j. now rewrite Z.eqb_refl.
      * rewrite IH. reflexivity.
    + destruct (TrailID t =? j) eqn:Ej.
      * apply Z.eqb_eq in Ej. subst j. rewrite Ei. reflexivity.
      * exact IH.
Qed.

Lemma trail_by_id_DeleteTrail (s : Store) (i j : Z) :
  trail_by_id j (DeleteTrail i s) =
  if j =? i then None else trail_by_id j s.
Proof.
  unfold trail_by_id, DeleteTrail; simpl.
  induction (Trail_table s) as [|t rows IH]; simpl.
  - now destruct (j =? i).
  - destruct (TrailID t =? i) eqn:Ei; simpl.
    + rewrite IH. apply Z.eqb_eq in Ei. rewrite Ei.
      destruct (j =? i) eqn:Ej; [reflexivity|].
      rewrite Z.eqb_sym in Ej. now rewrite Ej.
    + destruct (TrailID t =? j) eqn:Ej; [|exact IH].
      apply Z.eqb_eq in Ej. subst j. now rewrite Ei.
Qed.

Lemma find_trail_app_last (f : TrailRow -> bool) (rows : list TrailRow)
      (t : TrailRow) :
  find f (rows ++ [t]) =
  match find f rows with
  | Some x => Some x
  | None => if f t then Some t else None
  end.
Proof.
  induction rows as [|x rows IH]; simpl; [reflexivity|].
  now destruct (f x).
Qed.

Lemma trail_by_id_AddNewTrail (s : Store) (j : Z) (nm : string)
      (d : option string) (date owner : Z) :
  trail_by_id j (AddNewTrail nm d date owner s) =
  match trail_by_id j s with
  | Some t => Some t
  | None =>
      if next_TrailID s =? j
      then Some {| TrailID := next_TrailID s; TrailName := nm; Description := d;
                   DateCreated := date; CreatedBy := owner |}
      else None
  end.
Proof.
  unfold trail_by_id, AddNewTrail; simpl. now rewrite find_trail_app_last.
Qed.

(** C1.  A trail update or delete request for an id that no trail has fails
    with 404; one for a trail whose [CreatedBy] differs from the requester's
    [user_id] fails with 403; in both cases the only call made is the owner
    look-up and the store is as before.  When requester and owner agree the
    update returns the updated row and the delete its success message.
    Whatever the driver does, a write is sent and the store changes only for
    the owner. *)
Theorem update_delete_owner_guard (s : Store) (trail_id : Z)
        (body : TrailCreate) (requester : UserDict)
        (schedule : list (option string)) :
  (trail_by_id trail_id s = None ->
   run (update_trail trail_id body requester) s (None :: schedule) =
     (Raise (HTTPException 404 "Trail not found"), s, [SelectOwner trail_id]) /\
   run (delete_trail trail_id requester) s (None :: schedule) =
     (Raise (HTTPException 404 "Trail not found"), s, [SelectOwner trail_id])) /\
  (forall t, trail_by_id trail_id s = Some t ->
     CreatedBy t <> user_id requester ->
   run (update_trail trail_id body requester) s (None :: schedule) =
     (Raise (HTTPException 403 "Not authorized to update this trail"), s,
      [SelectOwner trail_id]) /\
   run (delete_trail trail_id requester) s (None :: schedule) =
     (Raise (HTTPException 403 "Not authorized to delete this trail"), s,
      [SelectOwner trail_id])) /\
  (forall t, trail_by_id trail_id s = Some t ->
     CreatedBy t = user_id requester ->
   run (update_trail trail_id body requester) s [] =
     (Return (set_name_description (body_TrailName body) (body_Description body) t),
      UpdateTrail trail_id (body_TrailName body) (body_Description body) s,
      [SelectOwner trail_id;
       Execute (ExecUpdateTrail trail_id (body_TrailName body) (body_Description body));
       Commit;
       Execute (SelectTrailByID trail_id)]) /\
   run (delete_trail trail_id requester) s [] =
     (Return "Trail deleted successfully",
      DeleteTrail trail_id s,
      [SelectOwner trail_id; Execute (ExecDeleteTrail trail_id); Commit])) /\
  (forall r s' log,
     run (update_trail trail_id body requester) s schedule = (r, s', log) ->
     sends_write log = true \/ s' <> s ->
     exists t, trail_by_id trail_id s = Some t /\
               CreatedBy t = user_id requester) /\
  (forall r s' log,
     run (delete_trail trail_id requester) s schedule = (r, s', log) ->
     sends_write log = true \/ s' <> s ->
     exists t, trail_by_id trail_id s = Some t /\
               CreatedBy t = user_id requester).
Proof.
  unfold update_trail, delete_trail, row_dict, SelectOwner. unfold_db. simpl.
  split; [|split; [|split; [|split]]].
  - now intros ->.
  - intros t -> Hne. simpl. apply Z.eqb_neq in Hne. now rewrite Hne.
  - intros t Ht Heq. rewrite Ht. simpl. apply Z.eqb_eq in Heq. rewrite Heq.
    simpl. rewrite trail_by_id_UpdateTrail, Z.eqb_refl, Ht. now split.
  - intros r s' log.
    destruct (trail_by_id trail_id s) as [t|] eqn:Ht; simpl;
      [destruct (CreatedBy t =? user_id requester) eqn:Eo; simpl|].
    + intros _ _. exists t. apply Z.eqb_eq in Eo. now split.
    + driver_cases; rewrite ?Eo; simpl; intro H; inversion H; subst; simpl;
        (intros [Hw|Hs]; [discriminate | now contradiction Hs]).
    + driver_cases; intro H; inversion H; subst; simpl;
        (intros [Hw|Hs]; [discriminate | now contradiction Hs]).
  - intros r s' log.
    destruct (trail_by_id trail_id s) as [t|] eqn:Ht; simpl;
      [destruct (CreatedBy t =? user_id requester) eqn:Eo; simpl|].
    + intros _ _. exists t. apply Z.eqb_eq in Eo. now split.
    + driver_cases; rewrite ?Eo; simpl; intro H; inversion H; subst; simpl;
        (intros [Hw|Hs]; [discriminate | now contradiction Hs]).
    + driver_cases; intro H; inversion H; subst; simpl;
        (intros [Hw|Hs]; [discriminate | now contradiction Hs]).
Qed.

(** ** The service as a state machine *)

Lemma reads_only_one_step {A : Type} (h : DB A) : reads_only h -> one_step h.
Proof.
  intros Hq c r c' _ Hrun. apply Hq in Hrun as [-> _]. constructor.
Qed.

Lemma bind_reads_only_one_step {A B : Type} (m : DB A) (k : A -> DB B) :
  reads_only m -> (forall a, one_step (k a)) -> one_step (bind m k).
Proof.
  intros Hm Hk c r c' Hc. unfold bind.
  destruct (m c) as [[e|a] c1] eqn:E; apply Hm in E as [Hd Ht].
  - intros [= <- <-]. rewrite Hd. constructor.
  - intro Hrun. rewrite <- Hd. apply (Hk a c1 r c'); congruence.
Qed.

Lemma get_user_by_email_reads_only (e : string) :
  reads_only (UserService.get_user_by_email e).
Proof.
  intros c r c'. unfold UserService.get_user_by_email. unfold_db.
  destruct c as [d t f l]; simpl.
  destruct (user_by_email e t); driver_cases; intros [= <- <-]; now split.
Qed.

Lemma get_current_user_reads_only (settings : Settings) (now : Z)
      (token : jwt.Token) :
  reads_only (get_current_user settings now token).
Proof.
  intros c r c'. unfold get_current_user, try_except, bind, lift, raise, ret.
  destruct (AuthUtils.decode_token settings token now) as [e|payload]; simpl.
  - intros [= <- <-]; now split.
  - destruct (dict_get "sub" payload) as [[e|n]|]; simpl;
      try (intros [= <- <-]; now split).
    destruct (UserService.get_user_by_email e c) as [[x|[u|]] c1] eqn:E;
      apply get_user_by_email_reads_only in E; simpl;
      intros [= <- <-]; exact E.
Qed.

Ltac break_scrutinee :=
  match goal with
  | |- context [match ?l with [] => _ | _ :: _ => _ end] =>
      is_var l; destruct l as [|[?|] ?]; simpl
  | |- context [match ?x with Some _ => _ | None => _ end] =>
      destruct x eqn:?; simpl
  | |- context [if ?b then _ else _] => destruct b eqn:?; simpl
  end.

Ltac one_step_by_cases :=
  intros [d t f l] r c'; simpl; intros -> ; unfold_db; simpl;
  repeat break_scrutinee;
  intro Hrun; inversion Hrun; subst; simpl; constructor.

Lemma create_trail_one_step (now : Z) (body : TrailCreate) (u : UserDict) :
  one_step (create_trail now body u).
Proof. unfold create_trail, row_dict. one_step_by_cases. Qed.

Lemma update_trail_one_step (i : Z) (body : TrailCreate) (u : UserDict) :
  one_step (update_trail i body u).
Proof. unfold update_trail, row_dict. one_step_by_cases. Qed.

Lemma delete_trail_one_step (i : Z) (u : UserDict) :
  one_step (delete_trail i u).
Proof. unfold delete_trail. one_step_by_cases. Qed.

Lemma get_trails_one_step : one_step get_trails.
Proof. unfold get_trails. one_step_by_cases. Qed.

Lemma get_trail_one_step (i : Z) : one_step (get_trail i).
Proof. unfold get_trail. one_step_by_cases. Qed.

Lemma get_or_create_user_one_step (e : string) (flag : bool) :
  one_step (UserService.get_or_create_user e flag).
Proof.
  unfold UserService.get_or_create_user, UserService.get_user_by_email,
    UserService.create_user.
  one_step_by_cases.
Qed.

Lemma login_one_step (settings : Settings)
      (post : string -> string -> string -> HttpReply) (now : Z)
      (username password : string) :
  one_step (login settings post now username password).
Proof.
  intros c r c' Hc. unfold login, bind at 1, lift at 1.
  destruct (AuthUtils.verify_plymouth_credentials post settings username password)
    as [e|[|]]; simpl.
  - intros [= <- <-]. constructor.
  - unfold try_except, bind, lift, ret, raise.
    destruct (UserService.get_or_create_user username true c) as [[e|u] c1] eqn:E;
      apply (get_or_create_user_one_step username true c _ _ Hc) in E; simpl.
    + intros [= <- <-]. exact E.
    + destruct (AuthUtils.create_access_token _ _ _ _); simpl;
        intros [= <- <-]; exact E.
  - intros [= <- <-]. constructor.
Qed.

Lemma serve_store_step (settings : Settings)
      (post : string -> string -> string -> HttpReply) (s : Store) (a : Arrival) :
  store_step s (serve settings post s a).
Proof.
  assert (Hrun : forall A (h : DB A) schedule,
             one_step h -> store_step s (store_after (run h s schedule))).
  { intros A h schedule Hh. unfold store_after, run.
    destruct (h (connect s schedule)) as [r c] eqn:E. simpl.
    exact (Hh (connect s schedule) r c eq_refl E). }
  unfold serve. destruct (request a); apply Hrun.
  - apply login_one_step.
  - apply get_trails_one_step.
  - apply get_trail_one_step.
  - apply bind_reads_only_one_step;
      [apply get_current_user_reads_only | intro; apply create_trail_one_step].
  - apply bind_reads_only_one_step;
      [apply get_current_user_reads_only | intro; apply update_trail_one_step].
  - apply bind_reads_only_one_step;
      [apply get_current_user_reads_only | intro; apply delete_trail_one_step].
Qed.

(** ** Owner and creation time of a trail *)

Lemma store_step_counter (s s' : Store) :
  store_step s s' -> next_TrailID s <= next_TrailID s'.
Proof. intros []; simpl; lia. Qed.

Lemma store_step_ids_below_counter (s s' : Store) :
  store_step s s' -> ids_below_counter s -> ids_below_counter s'.
Proof.
  unfold ids_below_counter.
  intros [| | nm d date owner | i nm d | i] Hinv t; simpl; auto.
  - intro Hin. apply in_app_or in Hin as [Hin|[<-|[]]]; simpl.
    + specialize (Hinv _ Hin). lia.
    + lia.
  - intro Hin. apply in_map_iff in Hin as (t0 & <- & Hin).
    specialize (Hinv _ Hin). now destruct (TrailID t0 =? i).
  - intro Hin. apply filter_In in Hin as [Hin _]. auto.
Qed.

Lemma store_step_keeps (i o d : Z) (s s' : Store) :
  store_step s s' -> keeps i o d s -> keeps i o d s'.
Proof.
  intros Hstep [Hlt Hrow]. split.
  - apply store_step_counter in Hstep. lia.
  - destruct Hstep as [| | nm ds date owner | j nm ds | j]; trivial.
    + intro t. rewrite trail_by_id_AddNewTrail.
      destruct (trail_by_id i s) as [t0|]; [intros [= <-]; now apply Hrow|].
      assert (E : (next_TrailID s =? i) = false) by (apply Z.eqb_neq; lia).
      rewrite E. discriminate.
    + intro t. rewrite trail_by_id_UpdateTrail.
      destruct (i =? j); [|apply Hrow].
      destruct (trail_by_id i s) as [t0|]; [|discriminate].
      simpl. intros [= <-]. simpl. now apply Hrow.
    + intro t. rewrite trail_by_id_DeleteTrail.
      destruct (i =? j); [discriminate | apply Hrow].
Qed.

Lemma serve_all_keeps (settings : Settings)
      (post : string -> string -> string -> HttpReply)
      (arrivals : list Arrival) (i o d : Z) (s : Store) :
  keeps i o d s -> keeps i o d (serve_all settings post s arrivals).
Proof.
  revert s. induction arrivals as [|a arrivals IH]; intros s Hk; simpl.
  - exact Hk.
  - apply IH. eapply store_step_keeps; [apply serve_store_step | exact Hk].
Qed.

Lemma serve_all_ids_below_counter (settings : Settings)
      (post : string -> string -> string -> HttpReply)
      (arrivals : list Arrival) (s : Store) :
  ids_below_counter s -> ids_below_counter (serve_all settings post s arrivals).
Proof.
  revert s. induction arrivals as [|a arrivals IH]; intros s Hinv; simpl.
  - exact Hinv.
  - apply IH. eapply store_step_ids_below_counter;
      [apply serve_store_step | exact Hinv].
Qed.

(** A stored user stays the answer of the look-up whatever is served
    afterwards: rows of the user table are only ever appended. *)
Lemma store_step_keeps_user (s s' : Store) (e : string) (r : UserRow) :
  store_step s s' -> user_by_email e s = Some r -> user_by_email e s' = Some r.
Proof.
  intros [| new_id nm e' | | |] Hr; trivial.
  unfold user_by_email, insert_user in *; simpl.
  now rewrite find_app_last, Hr.
Qed.

Lemma serve_all_keeps_user (settings : Settings)
      (post : string -> string -> string -> HttpReply)
      (arrivals : list Arrival) (s : Store) (e : string) (r : UserRow) :
  user_by_email e s = Some r ->
  user_by_email e (serve_all settings post s arrivals) = Some r.
Proof.
  revert s. induction arrivals as [|a arrivals IH]; intros s Hr; simpl.
  - exact Hr.
  - apply IH. eapply store_step_keeps_user; [apply serve_store_step | exact Hr].
Qed.

Lemma update_trail_returns (s s' : Store) (i : Z) (body : TrailCreate)
      (u : UserDict) (schedule : list (option string)) (row : TrailRow)
      (log : list Call) :
  run (update_trail i body u) s schedule = (Return row, s', log) ->
  exists t,
    trail_by_id i s = Some t /\
    CreatedBy t = user_id u /\
    row = set_name_description (body_TrailName body) (body_Description body) t /\
    s' = UpdateTrail i (body_TrailName body) (body_Description body) s.
Proof.
  unfold update_trail, row_dict. unfold_db. simpl.
  destruct (trail_by_id i s) as [t|] eqn:Ht; simpl;
    [destruct (CreatedBy t =? user_id u) eqn:Eo|].
  - driver_cases; rewrite ?Eo; simpl; try discriminate;
      driver_cases; try discriminate;
      rewrite trail_by_id_UpdateTrail, Z.eqb_refl, Ht; simpl;
      intros [= <- <- _]; exists t; apply Z.eqb_eq in Eo; now repeat split.
  - driver_cases; rewrite ?Eo; simpl; discriminate.
  - driver_cases; discriminate.
Qed.

(** C8.  A trail update that succeeds returns the stored row with only its
    name and description replaced: id, owner and creation time are those it
    had, the row is what a later read finds, every other trail and the user
    table are as before.  Over any sequence of requests served from a store
    whose trail ids come from the identity counter, a trail that is there at
    both ends has the owner (and the creation time) it started with. *)
Theorem update_preserves_owner_and_date (settings : Settings)
        (post : string -> string -> string -> HttpReply) :
  (forall s s' i body u schedule row log,
     run (update_trail i body u) s schedule = (Return row, s', log) ->
     exists t,
       trail_by_id i s = Some t /\
       trail_by_id i s' = Some row /\
       TrailID row = TrailID t /\
       CreatedBy row = CreatedBy t /\
       DateCreated row = DateCreated t /\
       TrailName row = body_TrailName body /\
       Description row = body_Description body /\
       (forall j, j <> i -> trail_by_id j s' = trail_by_id j s) /\
       User_table s' = User_table s /\
       next_TrailID s' = next_TrailID s) /\
  (forall s i t arrivals t',
     ids_below_counter s ->
     trail_by_id i s = Some t ->
     trail_by_id i (serve_all settings post s arrivals) = Some t' ->
     CreatedBy t' = CreatedBy t /\ DateCreated t' = DateCreated t).
Proof.
  split.
  - intros s s' i body u schedule row log Hrun.
    apply update_trail_returns in Hrun as (t & Ht & _ & -> & ->).
    exists t. split; [exact Ht|]. split.
    + now rewrite trail_by_id_UpdateTrail, Z.eqb_refl, Ht.
    + repeat split. intros j Hj. rewrite trail_by_id_UpdateTrail.
      apply Z.eqb_neq in Hj. now rewrite Hj.
  - intros s i t arrivals t' Hinv Ht Ht'.
    assert (Hk : keeps i (CreatedBy t) (DateCreated t) s).
    { split.
      - apply trail_by_id_found in Ht as [Hin <-]. now apply Hinv.
      - intros t0. rewrite Ht. now intros [= <-]. }
    apply (serve_all_keeps settings post arrivals) in Hk as [_ Hk].
    now apply Hk.
Qed.

(** ** The protected-route guard and trail creation *)

Lemma get_current_user_returns (settings : Settings) (now : Z)
      (token : jwt.Token) (c c' : Connection) (u : UserDict) :
  get_current_user settings now token c = (Return u, c') ->
  exists payload sub urow,
    AuthUtils.decode_token settings token now = Return payload /\
    dict_get "sub" payload = Some (JStr sub) /\
    user_by_email sub (txn c) = Some urow /\
    u = user_dict urow /\
    durable c' = durable c /\ txn c' = txn c /\
    calls c' = calls c ++ [Execute (SelectUserByEmail sub)].
Proof.
  unfold get_current_user, UserService.get_user_by_email. unfold_db.
  destruct (AuthUtils.decode_token settings token now) as [e|payload]; simpl;
    [discriminate|].
  destruct (dict_get "sub" payload) as [[sub|n]|] eqn:Hs; simpl;
    try discriminate.
  destruct c as [d t f l]; simpl.
  destruct (user_by_email sub t) as [urow|] eqn:Hu;
    driver_cases; try discriminate; intros [= <- <-];
    exists payload, sub, urow; simpl; now repeat split.
Qed.

Lemma get_current_user_raises (settings : Settings) (now : Z)
      (token : jwt.Token) (c c' : Connection) (e : exn) :
  get_current_user settings now token c = (Raise e, c') ->
  e = credentials_exception.
Proof.
  unfold get_current_user, UserService.get_user_by_email. unfold_db.
  destruct (AuthUtils.decode_token settings token now) as [x|payload]; simpl;
    [now intros [= <- _]|].
  destruct (dict_get "sub" payload) as [[sub|n]|]; simpl;
    try (now intros [= <- _]).
  destruct c as [d t f l]; simpl.
  destruct (user_by_email sub t);
    driver_cases; try discriminate; now intros [= <- _].
Qed.

Lemma top_trail_AddNewTrail (s : Store) (body : TrailCreate) (now owner : Z) :
  ids_below_counter s ->
  top_trail (AddNewTrail (body_TrailName body) (body_Description body) now owner s)
  = Some (new_trail_row s body now owner).
Proof.
  unfold ids_below_counter, top_trail, AddNewTrail; simpl. intro Hinv.
  rewrite fold_left_app; simpl.
  set (pick := fun (acc : option TrailRow) (t : TrailRow) =>
                 match acc with
                 | None => Some t
                 | Some m => if TrailID m <? TrailID t then Some t else Some m
                 end).
  assert (Hmax : forall rows acc,
             (forall t, In t rows -> In t (Trail_table s)) ->
             (forall m, acc = Some m -> In m (Trail_table s)) ->
             forall m, fold_left pick rows acc = Some m -> In m (Trail_table s)).
  { induction rows as [|t rows IH]; intros acc Hrows Hacc m; simpl.
    - apply Hacc.
    - apply IH.
      + intros x Hx. apply Hrows. now right.
      + intros x. destruct acc as [a|]; simpl.
        * destruct (TrailID a <? TrailID t); intros [= <-];
            [apply Hrows; now left | now apply Hacc].
        * intros [= <-]. apply Hrows. now left. }
  destruct (fold_left pick (Trail_table s) None) as [m|] eqn:E; [|reflexivity].
  apply Hmax in E; [|auto|discriminate].
  specialize (Hinv _ E). simpl.
  assert (L : (TrailID m <? next_TrailID s) = true) by (apply Z.ltb_lt; lia).
  now rewrite L.
Qed.

Lemma create_trail_effect (now : Z) (body : TrailCreate) (u : UserDict)
      (c c' : Connection) (r : outcome TrailRow) :
  txn c = durable c ->
  create_trail now body u c = (r, c') ->
  durable c' = durable c \/
  durable c' = AddNewTrail (body_TrailName body) (body_Description body)
                           now (user_id u) (durable c).
Proof.
  destruct c as [d t f l]; simpl. intros ->.
  unfold create_trail, row_dict. unfold_db. simpl.
  repeat break_scrutinee; intro H; inversion H; subst; simpl; auto.
Qed.

Lemma AddNewTrail_changes (s : Store) (nm : string) (d : option string)
      (date owner : Z) :
  AddNewTrail nm d date owner s <> s.
Proof.
  intro H. apply (f_equal next_TrailID) in H. simpl in H. lia.
Qed.

(** C10.  Whatever the request body and whatever the driver does, serving
    [POST /api/trails] either leaves the store as it is or adds one trail whose
    [CreatedBy] is the [UserID] of the row that the [User] table holds for the
    subject of the bearer token; name and description come from the body, the
    owner from nowhere else.  With a token that validates and no driver
    failure the trail is created and returned. *)
Theorem created_trail_owner_is_requester (settings : Settings) (now : Z)
        (token : jwt.Token) (body : TrailCreate) (s : Store) :
  (forall schedule r s' log,
     run (POST_api_trails settings now token body) s schedule = (r, s', log) ->
     s' = s \/
     exists payload sub urow,
       AuthUtils.decode_token settings token now = Return payload /\
       dict_get "sub" payload = Some (JStr sub) /\
       user_by_email sub s = Some urow /\
       s' = AddNewTrail (body_TrailName body) (body_Description body) now
                        (UserID urow) s) /\
  (forall payload sub urow,
     AuthUtils.decode_token settings token now = Return payload ->
     dict_get "sub" payload = Some (JStr sub) ->
     user_by_email sub s = Some urow ->
     ids_below_counter s ->
     run (POST_api_trails settings now token body) s [] =
     (Return (new_trail_row s body now (UserID urow)),
      AddNewTrail (body_TrailName body) (body_Description body) now (UserID urow) s,
      [Execute (SelectUserByEmail sub);
       Execute (ExecAddNewTrail (body_TrailName body) (body_Description body)
                                now (UserID urow));
       Commit;
       Execute SelectTopTrail])).
Proof.
  split.
  - intros schedule r s' log. unfold run, POST_api_trails, bind.
    destruct (get_current_user settings now token (connect s schedule))
      as [[e|u] c1] eqn:Eg.
    + apply get_current_user_reads_only in Eg as [Hd _].
      intros [= _ <- _]. now left.
    + apply get_current_user_returns in Eg
        as (payload & sub & urow & Hp & Hs & Hu & -> & Hd & Ht & _).
      simpl in Hu, Hd, Ht.
      destruct (create_trail now body (user_dict urow) c1) as [r1 c2] eqn:Ec.
      apply create_trail_effect in Ec; [|congruence].
      intros [= _ <- _]. rewrite Hd in Ec. destruct Ec as [->| ->];
        [now left | right].
      exists payload, sub, urow. now repeat split.
  - intros payload sub urow Hp Hs Hu Hinv.
    unfold run, POST_api_trails, get_current_user, create_trail, row_dict,
      UserService.get_user_by_email.
    unfold_db. rewrite Hp. simpl. rewrite Hs. simpl. rewrite Hu. simpl.
    now rewrite top_trail_AddNewTrail.
Qed.

(** ** The login flow *)

Lemma verify_raises_503 (settings : Settings)
      (post : string -> string -> string -> HttpReply)
      (username password : string) (e : exn) :
  AuthUtils.verify_plymouth_credentials post settings username password = Raise e ->
  e = HTTPException 503 "Could not connect to authentication service".
Proof.
  unfold AuthUtils.verify_plymouth_credentials.
  destruct (post _ _ _) as [why|code [text|doc]]; simpl.
  - now intros [= <-].
  - destruct (code =? 200); simpl; [now intros [= <-] | discriminate].
  - destruct (code =? 200); discriminate.
Qed.

(** C9 as the code has it.  A failure of the external verification leaves
    [login] with its own status, 503 when the service cannot be reached and 401
    when it does not confirm the credentials, before any database call.  Once
    the credentials are confirmed, an exception raised while the user is
    resolved, and equally one raised while the token is issued, is caught and
    reported as a 500 whose detail carries the message of that exception. *)
Theorem login_error_mapping (settings : Settings)
        (post : string -> string -> string -> HttpReply) (now : Z)
        (username password : string) (c : Connection) :
  let verdict :=
    AuthUtils.verify_plymouth_credentials post settings username password in
  let issue := fun user =>
    AuthUtils.create_access_token settings (login_claims username user)
      (Some (timedelta_minutes (ACCESS_TOKEN_EXPIRE_MINUTES settings))) now in
  (forall e, verdict = Raise e ->
     e = HTTPException 503 "Could not connect to authentication service" /\
     login settings post now username password c = (Raise e, c)) /\
  (verdict = Return false ->
     login settings post now username password c =
     (Raise (HTTPException 401 "Incorrect email or password"), c)) /\
  (verdict = Return true ->
   (forall e c',
      UserService.get_or_create_user username true c = (Raise e, c') ->
      login settings post now username password c = (Raise (generic_500 e), c')) /\
   (forall user c' e,
      UserService.get_or_create_user username true c = (Return user, c') ->
      issue user = Raise e ->
      login settings post now username password c = (Raise (generic_500 e), c')) /\
   (forall user c' token,
      UserService.get_or_create_user username true c = (Return user, c') ->
      issue user = Return token ->
      login settings post now username password c =
      (Return {| access_token := token; token_type := "bearer";
                 user_summary := user |}, c'))).
Proof.
  intros verdict issue. unfold login. fold verdict.
  split; [|split].
  - intros e He. split; [now apply verify_raises_503 in He|].
    unfold bind, lift. now rewrite He.
  - intros He. unfold bind, lift, raise. now rewrite He.
  - intros He. unfold try_except, bind, lift, ret, raise.
    rewrite He. cbn [negb]. split; [|split].
    + intros e c' Hg. rewrite Hg. reflexivity.
    + intros user c' e Hg Hi. rewrite Hg.
      unfold issue, login_claims in Hi. now rewrite Hi.
    + intros user c' token Hg Hi. rewrite Hg.
      unfold issue, login_claims in Hi. rewrite Hi. now destruct user.
Qed.

(** A failure of token issuance (step 4) gets no status of its own: with an
    algorithm name that the token library does not know, the credentials are
    confirmed, the user is resolved, the issuing call raises, and the answer is
    the same generic 500 as for a failure of step 3. *)
Lemma login_token_failure_is_generic_500 :
  let settings := settings_with_algorithm "HS1024" in
  let post := fun _ _ _ : string => verified_reply in
  let user := {| user_id := 1; name := "new"; email := "new@x.com" |} in
  AuthUtils.verify_plymouth_credentials post settings "new@x.com" "pw" = Return true /\
  fst (fst (run (UserService.get_or_create_user "new@x.com" true) empty_store []))
    = Return user /\
  AuthUtils.create_access_token settings (login_claims "new@x.com" user)
    (Some (timedelta_minutes 30)) 1000
    = Raise (NotImplementedError "Algorithm not supported") /\
  fst (fst (run (login settings post 1000 "new@x.com" "pw") empty_store []))
    = Raise (HTTPException 500
               "Error during user management: Algorithm not supported") /\
  http_status
    (fst (fst (run (login settings post 1000 "new@x.com" "pw") empty_store [])))
    = 500.
Proof. repeat split. Qed.

(** ** Writes, commits and rollbacks *)

(** [create_user] is atomic: when it reports an error the driver was told
    to roll back, and the store is as it was. *)
Lemma create_user_error_rolls_back (s s' : Store) (e nm : string)
      (schedule : list (option string)) (x : exn) (log : list Call) :
  run (UserService.create_user e nm) s schedule = (Raise x, s', log) ->
  s' = s /\
  last log Commit = Rollback /\
  exists msg, x = HTTPException 500 ("Error creating user: " ++ msg)%string.
Proof.
  unfold UserService.create_user. unfold_db. simpl.
  driver_cases; intro H; inversion H; subst; simpl;
    (split; [reflexivity | split; [reflexivity | eexists; reflexivity]]).
Qed.

Lemma create_user_success_commits (s s' : Store) (e nm : string)
      (schedule : list (option string)) (u : UserDict) (log : list Call) :
  run (UserService.create_user e nm) s schedule = (Return u, s', log) ->
  s' = insert_user (user_id u) nm e s /\ last log Rollback = Commit.
Proof.
  unfold UserService.create_user. unfold_db. simpl.
  driver_cases; intro H; inversion H; subst; simpl; now split.
Qed.

(** The trail handlers never ask for a rollback. *)
Lemma trail_handlers_never_roll_back (s : Store) (now i : Z)
      (body : TrailCreate) (u : UserDict) (schedule : list (option string)) :
  ~ In Rollback (snd (run (create_trail now body u) s schedule)) /\
  ~ In Rollback (snd (run (update_trail i body u) s schedule)) /\
  ~ In Rollback (snd (run (delete_trail i u) s schedule)).
Proof.
  unfold create_trail, update_trail, delete_trail, row_dict. unfold_db. simpl.
  repeat split; repeat break_scrutinee; simpl; intuition discriminate.
Qed.

(** C5.  The trail writes are not wrapped the way user creation is.  When
    the insert of [create_user] fails, the handler rolls back and reports the
    error with the store unchanged.  When the [AddNewTrail] call of
    [create_trail] fails, the error goes out with no rollback sent; and when
    that call and the commit go through but the read-back [SELECT] fails, the
    error is reported although the new trail is already committed. *)
Theorem trail_write_error_paths :
  run (UserService.create_user "b@x.com" "b") one_user_store
      [None; Some "deadlock victim"] =
    (Raise (HTTPException 500 "Error creating user: deadlock victim"),
     one_user_store,
     [Execute SelectMaxUserID; Execute (InsertUser 2 "b" "b@x.com"); Rollback]) /\
  run (create_trail 1000 coast_path first_user) one_user_store
      [Some "deadlock victim"] =
    (Raise (PyodbcError "deadlock victim"),
     one_user_store,
     [Execute (ExecAddNewTrail "Coast path" None 1000 1)]) /\
  run (create_trail 1000 coast_path first_user) one_user_store
      [None; None; Some "connection lost"] =
    (Raise (PyodbcError "connection lost"),
     AddNewTrail "Coast path" None 1000 1 one_user_store,
     [Execute (ExecAddNewTrail "Coast path" None 1000 1); Commit;
      Execute SelectTopTrail]) /\
  AddNewTrail "Coast path" None 1000 1 one_user_store <> one_user_store.
Proof.
  repeat split. apply AddNewTrail_changes.
Qed.

(** ** The theorems at concrete requests *)

Lemma update_delete_owner_guard_witness :
  run (update_trail 1 coast_path second_user) one_trail_store [None] =
    (Raise (HTTPException 403 "Not authorized to update this trail"),
     one_trail_store, [SelectOwner 1]) /\
  run (delete_trail 1 second_user) one_trail_store [None] =
    (Raise (HTTPException 403 "Not authorized to delete this trail"),
     one_trail_store, [SelectOwner 1]).
Proof.
  apply (proj1 (proj2 (update_delete_owner_guard
                         one_trail_store 1 coast_path second_user []))
               (new_trail_row one_user_store moor_walk 900 1)).
  - reflexivity.
  - simpl. lia.
Defined.

Lemma decode_token_failure_kinds_witness :
  AuthUtils.decode_token default_settings (token_of first_user 2800) 5000
  = Raise Expired.
Proof.
  apply (proj2 (proj1 (decode_token_failure_kinds
                         default_settings (token_of first_user 2800) 5000))).
  eexists. exists 2800. split; [reflexivity|].
  split; [reflexivity|]. split; [reflexivity|]. split; [reflexivity | lia].
Defined.

Lemma create_user_assigns_fresh_id_witness :
  exists new_id,
    fst (fst (run (UserService.create_user "b@x.com" "b") one_user_store []))
      = Return {| user_id := new_id; name := "b"; email := "b@x.com" |} /\
    0 < new_id /\
    ~ In new_id (map UserID (User_table one_user_store)).
Proof.
  destruct (create_user_assigns_fresh_id one_user_store "b@x.com" "b")
    as (new_id & Hrun & _ & _ & _ & Hfresh & Hpos).
  exists new_id. split; [now rewrite Hrun|]. split; [|exact Hfresh].
  apply Hpos. intros u [<-|[]]. simpl. lia.
Defined.

Lemma update_preserves_owner_and_date_witness :
  CreatedBy (new_trail_row one_user_store coast_path 900 1) = 1 /\
  DateCreated (new_trail_row one_user_store coast_path 900 1) = 900.
Proof.
  apply (proj2 (update_preserves_owner_and_date
                  default_settings (fun _ _ _ => verified_reply))
               one_trail_store 1
               (new_trail_row one_user_store moor_walk 900 1)
               [{| request := PutTrail (token_of first_user 2800) 1 coast_path;
                   arrives_at := 1000; driver := [] |};
                {| request := PostTrail (token_of first_user 2800) moor_walk;
                   arrives_at := 1001; driver := [] |};
                {| request := DeleteTrailRequest (token_of first_user 2800) 2;
                   arrives_at := 1002; driver := [] |}]).
  - intros t [<-|[]]. simpl. lia.
  - reflexivity.
  - reflexivity.
Defined.

Lemma login_error_mapping_witness :
  login default_settings (fun _ _ _ => Response 401 (Json JNull)) 1000
        "new@x.com" "wrong" (connect empty_store []) =
  (Raise (HTTPException 401 "Incorrect email or password"),
   connect empty_store []).
Proof.
  apply (proj1 (proj2 (login_error_mapping
                         default_settings (fun _ _ _ => Response 401 (Json JNull))
                         1000 "new@x.com" "wrong" (connect empty_store [])))).
  reflexivity.
Defined.

Lemma created_trail_owner_is_requester_witness :
  run (POST_api_trails default_settings 1000 (token_of first_user 2800) coast_path)
      one_user_store [] =
  (Return (new_trail_row one_user_store coast_path 1000 1),
   AddNewTrail "Coast path" None 1000 1 one_user_store,
   [Execute (SelectUserByEmail "new@x.com");
    Execute (ExecAddNewTrail "Coast path" None 1000 1);
    Commit;
    Execute SelectTopTrail]).
Proof.
  apply (proj2 (created_trail_owner_is_requester
                  default_settings 1000 (token_of first_user 2800)
                  coast_path one_user_store)
               (dict_update "exp" (JInt 2800) (login_claims "new@x.com" first_user))
               "new@x.com"
               {| UserID := 1; Name := "new"; Email := "new@x.com";
                  Password := "external_auth" |}).
  - reflexivity.
  - reflexivity.
  - reflexivity.
  - intros t [].
Defined.

(** * Further properties of the handlers *)

(** ** The guard of the protected routes *)

Lemma sends_write_app (l l' : list Call) :
  sends_write (l ++ l') = sends_write l || sends_write l'.
Proof. unfold sends_write. apply existsb_app. Qed.

Lemma get_current_user_calls (settings : Settings) (now : Z)
      (token : jwt.Token) (c c' : Connection) (r : outcome UserDict) :
  get_current_user settings now token c = (r, c') ->
  calls c' = calls c \/
  exists sub, calls c' = calls c ++ [Execute (SelectUserByEmail sub)].
Proof.
  unfold get_current_user, UserService.get_user_by_email. unfold_db.
  destruct (AuthUtils.decode_token settings token now) as [x|payload]; simpl;
    [intros [= _ <-]; now left|].
  destruct (dict_get "sub" payload) as [[sub|n]|]; simpl;
    try (intros [= _ <-]; now left).
  destruct c as [d t f l]; simpl.
  destruct (user_by_email sub t);
    driver_cases; intros [= _ <-]; simpl; right; now exists sub.
Qed.

Lemma get_current_user_sends_no_write (settings : Settings) (now : Z)
      (token : jwt.Token) (c c' : Connection) (r : outcome UserDict) :
  get_current_user settings now token c = (r, c') ->
  sends_write (calls c') = sends_write (calls c).
Proof.
  intro H. apply get_current_user_calls in H as [->|[sub ->]]; trivial.
  rewrite sends_write_app. simpl. apply orb_false_r.
Qed.

(** X1.  Whatever makes the guard of the protected routes fail, a token that
    does not validate or has expired, a token without subject, a subject that
    no user row has, or a failure of the database driver, the caller gets one
    and the same 401 "Could not validate credentials"; the store and the open
    transaction are as before and no writing statement was sent. *)
Theorem guard_failures_are_one_401 (settings : Settings) (now : Z)
        (token : jwt.Token) (c c' : Connection) (e : exn) :
  get_current_user settings now token c = (Raise e, c') ->
  e = HTTPException 401 "Could not validate credentials" /\
  durable c' = durable c /\
  txn c' = txn c /\
  sends_write (calls c') = sends_write (calls c).
Proof.
  intro H. split; [|split; [|split]].
  - now apply get_current_user_raises in H.
  - now apply get_current_user_reads_only in H.
  - now apply get_current_user_reads_only in H.
  - now apply get_current_user_sends_no_write in H.
Qed.

Lemma guard_failures_are_one_401_witness :
  HTTPException 401 "Could not validate credentials" =
    HTTPException 401 "Could not validate credentials" /\
  one_user_store = one_user_store /\
  one_user_store = one_user_store /\
  sends_write [Execute (SelectUserByEmail "new@x.com")] = sends_write [].
Proof.
  apply (guard_failures_are_one_401
           default_settings 1000 (token_of first_user 2800)
           (connect one_user_store [Some "server has gone away"])
           {| durable := one_user_store; txn := one_user_store; failures := [];
              calls := [Execute (SelectUserByEmail "new@x.com")] |}).
  reflexivity.
Defined.

(** X2.  When the driver does not fail, the guard lets a request through
    exactly when the token validates, its subject is a string and some user row
    has that email; the user it hands on is read from the first such row of the
    table, so the [user_id] and [name] written in the token play no part. *)
Theorem guard_resolves_subject_from_table (settings : Settings) (now : Z)
        (token : jwt.Token) (s : Store) (u : UserDict) :
  fst (fst (run (get_current_user settings now token) s [])) = Return u <->
  exists payload sub urow,
    AuthUtils.decode_token settings token now = Return payload /\
    dict_get "sub" payload = Some (JStr sub) /\
    user_by_email sub s = Some urow /\
    In urow (User_table s) /\
    u = {| user_id := UserID urow; name := Name urow; email := sub |}.
Proof.
  unfold run. split.
  - destruct (get_current_user settings now token (connect s [])) as [r c1] eqn:E.
    simpl. intros ->.
    apply get_current_user_returns in E
      as (payload & sub & urow & Hp & Hs & Hu & -> & _).
    simpl in Hu. exists payload, sub, urow.
    destruct (user_by_email_found _ _ _ Hu) as [Hin He].
    repeat split; trivial. unfold user_dict. now rewrite He.
  - intros (payload & sub & urow & Hp & Hs & Hu & _ & ->).
    destruct (user_by_email_found _ _ _ Hu) as [_ He].
    unfold get_current_user, UserService.get_user_by_email. unfold_db.
    rewrite Hp. simpl. rewrite Hs. simpl. rewrite Hu. simpl. now rewrite He.
Qed.

Lemma guard_resolves_subject_from_table_witness :
  fst (fst (run (get_current_user default_settings 1000
                   (token_of {| user_id := 77; name := "stale"; email := "new@x.com" |}
                             2800))
                one_user_store []))
  = Return first_user.
Proof.
  apply (proj2 (guard_resolves_subject_from_table
                  default_settings 1000
                  (token_of {| user_id := 77; name := "stale"; email := "new@x.com" |}
                            2800)
                  one_user_store first_user)).
  eexists. exists "new@x.com". eexists.
  split; [reflexivity|]. split; [reflexivity|]. split; [reflexivity|].
  split; [now left | reflexivity].
Defined.

(** X3.  [/users/me] and [/protected] answer from the user table: a
    successful [/protected] reports as [user_email] the subject of the token it
    was given, a successful [/users/me] returns a row of the table whose email
    is that subject, and neither route changes the store or sends a writing
    statement, whatever the driver does. *)
Theorem read_routes_report_the_subject (settings : Settings) (now : Z)
        (token : jwt.Token) (s : Store) (schedule : list (option string)) :
  (forall resp s' log,
     run (GET_protected settings now token) s schedule = (Return resp, s', log) ->
     message resp = "You are authenticated" /\
     (exists payload,
        AuthUtils.decode_token settings token now = Return payload /\
        dict_get "sub" payload = Some (JStr (user_email resp)))) /\
  (forall u s' log,
     run (GET_users_me settings now token) s schedule = (Return u, s', log) ->
     exists payload urow,
       AuthUtils.decode_token settings token now = Return payload /\
       dict_get "sub" payload = Some (JStr (email u)) /\
       In urow (User_table s) /\ u = user_dict urow) /\
  (forall r s' log,
     run (GET_protected settings now token) s schedule = (r, s', log) ->
     s' = s /\ sends_write log = false) /\
  (forall r s' log,
     run (GET_users_me settings now token) s schedule = (r, s', log) ->
     s' = s /\ sends_write log = false).
Proof.
  unfold run, GET_protected, GET_users_me, protected_route, read_users_me,
    bind, ret.
  destruct (get_current_user settings now token (connect s schedule))
    as [[e|u0] c1] eqn:E.
  - pose proof (get_current_user_reads_only _ _ _ _ _ _ E) as [Hd _].
    pose proof (get_current_user_sends_no_write _ _ _ _ _ _ E) as Hw.
    simpl in Hd, Hw.
    split; [|split; [|split]]; intros ? ? ? H; try discriminate;
      injection H as _ <- <-; now split.
  - pose proof (get_current_user_sends_no_write _ _ _ _ _ _ E) as Hw.
    apply get_current_user_returns in E
      as (payload & sub & urow & Hp & Hs & Hu & -> & Hd & _).
    simpl in Hu, Hd, Hw.
    destruct (user_by_email_found _ _ _ Hu) as [Hin He].
    split; [|split; [|split]]; intros ? ? ? H; injection H as <- <- <-.
    + split; [reflexivity|]. exists payload. simpl. now rewrite He.
    + exists payload, urow. simpl. now rewrite He.
    + now split.
    + now split.
Qed.

Lemma read_routes_report_the_subject_witness :
  message {| message := "You are authenticated"; user_email := "new@x.com" |}
    = "You are authenticated" /\
  exists payload,
    AuthUtils.decode_token default_settings (token_of first_user 2800) 1000
      = Return payload /\
    dict_get "sub" payload = Some (JStr "new@x.com").
Proof.
  apply (proj1 (read_routes_report_the_subject
                  default_settings 1000 (token_of first_user 2800)
                  one_user_store [])
               {| message := "You are authenticated"; user_email := "new@x.com" |}
               one_user_store
               [Execute (SelectUserByEmail "new@x.com")]).
  reflexivity.
Defined.

(** ** Issuing tokens *)





(** ** From login to the protected routes *)




(** ** The user table over the life of the service *)



Ltac users_one_step_by_cases :=
  intros [d t f l] r c'; simpl; intros -> ; unfold_db; simpl;
  repeat break_scrutinee;
  intro Hrun; inversion Hrun; subst; simpl;
  first [ now apply users_same
        | eapply users_new;
          [ eassumption
          | unfold next_UserID; simpl;
            try match goal with
                | H : max_UserID _ = _ |- _ => rewrite H
                end;
            reflexivity ] ].

Lemma create_trail_users (now : Z) (body : TrailCreate) (u : UserDict) :
  users_one_step (create_trail now body u).
Proof. unfold create_trail, row_dict. users_one_step_by_cases. Qed.

Lemma update_trail_users (i : Z) (body : TrailCreate) (u : UserDict) :
  users_one_step (update_trail i body u).
Proof. unfold update_trail, row_dict. users_one_step_by_cases. Qed.

Lemma delete_trail_users (i : Z) (u : UserDict) :
  users_one_step (delete_trail i u).
Proof. unfold delete_trail. users_one_step_by_cases. Qed.

Lemma get_trails_users : users_one_step get_trails.
Proof. unfold get_trails. users_one_step_by_cases. Qed.

Lemma get_trail_users (i : Z) : users_one_step (get_trail i).
Proof. unfold get_trail. users_one_step_by_cases. Qed.

Lemma get_or_create_user_users (e : string) (flag : bool) :
  users_one_step (UserService.get_or_create_user e flag).
Proof.
  unfold UserService.get_or_create_user, UserService.get_user_by_email,
    UserService.create_user.
  users_one_step_by_cases.
Qed.

Lemma bind_reads_only_users {A B : Type} (m : DB A) (k : A -> DB B) :
  reads_only m -> (forall a, users_one_step (k a)) -> users_one_step (bind m k).
Proof.
  intros Hm Hk c r c' Hc. unfold bind.
  destruct (m c) as [[e|a] c1] eqn:E; apply Hm in E as [Hd Ht].
  - intros [= <- <-]. apply users_same. now rewrite Hd.
  - intro Hrun. rewrite <- Hd. apply (Hk a c1 r c'); congruence.
Qed.

Lemma login_users (settings : Settings)
      (post : string -> string -> string -> HttpReply) (now : Z)
      (username password : string) :
  users_one_step (login settings post now username password).
Proof.
  intros c r c' Hc. unfold login, bind at 1, lift at 1.
  destruct (AuthUtils.verify_plymouth_credentials post settings username password)
    as [e|[|]]; simpl.
  - intros [= <- <-]. now apply users_same.
  - unfold try_except, bind, lift, ret, raise.
    destruct (UserService.get_or_create_user username true c) as [[e|u] c1] eqn:E;
      apply (get_or_create_user_users username true c _ _ Hc) in E; simpl.
    + intros [= <- <-]. exact E.
    + destruct (AuthUtils.create_access_token _ _ _ _); simpl;
        intros [= <- <-]; exact E.
  - intros [= <- <-]. now apply users_same.
Qed.

Lemma serve_user_step (settings : Settings)
      (post : string -> string -> string -> HttpReply) (s : Store) (a : Arrival) :
  user_step s (serve settings post s a).
Proof.
  assert (Hrun : forall A (h : DB A) schedule,
             users_one_step h -> user_step s (store_after (run h s schedule))).
  { intros A h schedule Hh. unfold store_after, run.
    destruct (h (connect s schedule)) as [r c] eqn:E. simpl.
    exact (Hh (connect s schedule) r c eq_refl E). }
  unfold serve. destruct (request a); apply Hrun.
  - apply login_users.
  - apply get_trails_users.
  - apply get_trail_users.
  - apply bind_reads_only_users;
      [apply get_current_user_reads_only | intro; apply create_trail_users].
  - apply bind_reads_only_users;
      [apply get_current_user_reads_only | intro; apply update_trail_users].
  - apply bind_reads_only_users;
      [apply get_current_user_reads_only | intro; apply delete_trail_users].
Qed.

Lemma user_by_email_none (s : Store) (e : string) :
  user_by_email e s = None -> ~ In e (map Email (User_table s)).
Proof.
  unfold user_by_email. intros Hnone Hin.
  apply in_map_iff in Hin as (r & <- & Hin).
  apply (find_none _ _ Hnone) in Hin. now rewrite String.eqb_refl in Hin.
Qed.

Lemma NoDup_snoc {A : Type} (l : list A) (x : A) :
  NoDup l -> ~ In x l -> NoDup (l ++ [x]).
Proof.
  intros Hl Hx. apply NoDup_app; trivial.
  - constructor; [intros [] | constructor].
  - intros a Ha [<-|[]]. contradiction.
Qed.

Lemma user_step_unique (s s' : Store) :
  user_step s s' -> users_unique s -> users_unique s'.
Proof.
  unfold users_unique. intros [Hsame|nm e Hnone Hnew] [Hid Hem].
  - now rewrite Hsame.
  - rewrite Hnew, !map_app. simpl. split; apply NoDup_snoc; trivial.
    + apply next_UserID_fresh.
    + now apply user_by_email_none.
Qed.

(** X7.  Over any sequence of requests, whatever the tokens, the replies of
    the identity service and the failures of the driver, the service only ever
    appends to the user table: the rows it started with are still there, in
    place and unchanged, and every row added since carries the sentinel
    password, so no password given at login is ever stored. *)
Theorem users_are_only_appended (settings : Settings)
        (post : string -> string -> string -> HttpReply)
        (arrivals : list Arrival) (s : Store) :
  exists added,
    User_table (serve_all settings post s arrivals) = User_table s ++ added /\
    Forall (fun r => Password r = "external_auth") added.
Proof.
  revert s. induction arrivals as [|a arrivals IH]; intro s; simpl.
  - exists []. now rewrite app_nil_r.
  - destruct (IH (serve settings post s a)) as (added & Htable & Hsent).
    destruct (serve_user_step settings post s a) as [Hsame|nm e _ Hnew].
    + exists added. now rewrite Htable, Hsame.
    + exists (sentinel_row (next_UserID s) nm e :: added).
      rewrite Htable, Hnew, <- app_assoc. split; [reflexivity|].
      now constructor.
Qed.

(** X8.  If no two users share an id and no two share an email, this stays
    so over any sequence of requests: [login] creates a user only for an email
    that no row has, and under an id that no row has. *)
Theorem users_stay_unique (settings : Settings)
        (post : string -> string -> string -> HttpReply)
        (arrivals : list Arrival) (s : Store) :
  users_unique s -> users_unique (serve_all settings post s arrivals).
Proof.
  revert s. induction arrivals as [|a arrivals IH]; intros s Hu; simpl.
  - exact Hu.
  - apply IH. eapply user_step_unique; [apply serve_user_step | exact Hu].
Qed.

Lemma users_stay_unique_witness :
  users_unique
    (serve_all default_settings (fun _ _ _ => verified_reply) one_user_store
       [{| request := PostToken "new@x.com" "secret"; arrives_at := 1000;
           driver := [] |};
        {| request := PostToken "b@x.com" "secret"; arrives_at := 1001;
           driver := [] |};
        {| request := PostToken "b@x.com" "secret"; arrives_at := 1002;
           driver := [Some "timeout"] |}]).
Proof.
  apply (users_stay_unique default_settings (fun _ _ _ => verified_reply)).
  split; simpl; (constructor; [intros [] | constructor]).
Defined.

(** X9.  [login] touches the database only for confirmed credentials.  If
    the identity service does not confirm them, no call reaches the driver and
    the store is as before.  If the store does change, then the credentials were
    confirmed, no user had the email, and exactly one row was added: the next
    id, the part of the email before the first '@' as name, the email, and the
    sentinel password. *)
Theorem login_creates_only_verified_users (settings : Settings)
        (post : string -> string -> string -> HttpReply) (now : Z)
        (username password : string) (s s' : Store)
        (schedule : list (option string)) (r : outcome LoginResponse)
        (log : list Call) :
  run (login settings post now username password) s schedule = (r, s', log) ->
  (post (PLYMOUTH_AUTH_URL settings) username password <>
     Response 200 (Json confirmation) ->
   s' = s /\ log = [] /\ exists e, r = Raise e) /\
  (s' <> s ->
   post (PLYMOUTH_AUTH_URL settings) username password =
     Response 200 (Json confirmation) /\
   user_by_email username s = None /\
   s' = insert_user (next_UserID s) (local_part username) username s).
Proof.
  unfold run, login. unfold bind at 1, lift at 1.
  destruct (AuthUtils.verify_plymouth_credentials post settings username password)
    as [e|[|]] eqn:Hv.
  - intros [= <- <- <-]. split; [|intro H; now contradiction H].
    intros _. repeat split. now exists e.
  - apply verify_true_iff in Hv. intro Hrun. split; [intro H; contradiction|].
    intro Hchanged. split; [exact Hv|].
    revert Hrun. cbn [negb].
    unfold try_except, bind at 1. unfold bind at 1.
    unfold UserService.get_or_create_user, UserService.get_user_by_email,
      UserService.create_user, local_part, next_UserID.
    unfold_db. simpl.
    destruct (user_by_email username s) eqn:Hu;
      driver_cases;
      repeat match goal with
             | |- context [match ?x with Raise _ => _ | Return _ => _ end] =>
                 destruct x; simpl
             end;
      intro H; inversion H; subst; try (now contradiction Hchanged);
      now split.
  - intros [= <- <- <-]. split; [|intro H; now contradiction H].
    intros _. repeat split. eexists; reflexivity.
Qed.

Lemma login_creates_only_verified_users_witness :
  one_user_store = one_user_store /\
  @nil Call = [] /\
  exists e,
    @Raise LoginResponse (HTTPException 401 "Incorrect email or password") = Raise e.
Proof.
  apply (proj1 (login_creates_only_verified_users
                  default_settings (fun _ _ _ => Response 200 (Json (JString "Verified")))
                  1000 "b@x.com" "guess" one_user_store one_user_store []
                  (Raise (HTTPException 401 "Incorrect email or password")) []
                  eq_refl)).
  discriminate.
Defined.

(** ** Who can change a trail through the routes *)

Ltac no_write_without_owner Eo :=
  driver_cases; rewrite ?Eo; simpl; intro H; inversion H; subst; simpl;
  rewrite ?sends_write_app; simpl; rewrite ?orb_false_r;
  (intros [Hw|Hs]; [now left | now contradiction Hs]).

Lemma update_trail_write_needs_owner (i : Z) (body : TrailCreate) (u : UserDict)
      (c c' : Connection) (r : outcome TrailRow) :
  txn c = durable c ->
  update_trail i body u c = (r, c') ->
  sends_write (calls c') = true \/ durable c' <> durable c ->
  sends_write (calls c) = true \/
  exists t, trail_by_id i (durable c) = Some t /\ CreatedBy t = user_id u.
Proof.
  destruct c as [d t f l]; simpl. intros ->.
  unfold update_trail, row_dict. unfold_db. simpl.
  destruct (trail_by_id i d) as [t|] eqn:Ht; simpl;
    [destruct (CreatedBy t =? user_id u) eqn:Eo|].
  - intros _ _. right. exists t. apply Z.eqb_eq in Eo. now split.
  - no_write_without_owner Eo.
  - no_write_without_owner Ht.
Qed.

Lemma delete_trail_write_needs_owner (i : Z) (u : UserDict)
      (c c' : Connection) (r : outcome string) :
  txn c = durable c ->
  delete_trail i u c = (r, c') ->
  sends_write (calls c') = true \/ durable c' <> durable c ->
  sends_write (calls c) = true \/
  exists t, trail_by_id i (durable c) = Some t /\ CreatedBy t = user_id u.
Proof.
  destruct c as [d t f l]; simpl. intros ->.
  unfold delete_trail. unfold_db. simpl.
  destruct (trail_by_id i d) as [t|] eqn:Ht; simpl;
    [destruct (CreatedBy t =? user_id u) eqn:Eo|].
  - intros _ _. right. exists t. apply Z.eqb_eq in Eo. now split.
  - no_write_without_owner Eo.
  - no_write_without_owner Ht.
Qed.

(** Serving a guarded route: the guard fails and nothing was written, or it
    handed a stored user to the handler. *)
Lemma guarded_route_cases {A : Type} (settings : Settings) (now : Z)
      (token : jwt.Token) (k : UserDict -> DB A) (s s' : Store)
      (schedule : list (option string)) (r : outcome A) (log : list Call) :
  run (bind (get_current_user settings now token) k) s schedule = (r, s', log) ->
  (s' = s /\ sends_write log = false /\ r = Raise credentials_exception) \/
  exists payload sub urow c1 c2,
    AuthUtils.decode_token settings token now = Return payload /\
    dict_get "sub" payload = Some (JStr sub) /\
    user_by_email sub s = Some urow /\
    durable c1 = s /\ txn c1 = s /\ sends_write (calls c1) = false /\
    k (user_dict urow) c1 = (r, c2) /\ durable c2 = s' /\ calls c2 = log.
Proof.
  unfold run, bind.
  destruct (get_current_user settings now token (connect s schedule))
    as [[e|u] c1] eqn:E.
  - pose proof (get_current_user_raises _ _ _ _ _ _ E) as ->.
    pose proof (get_current_user_reads_only _ _ _ _ _ _ E) as [Hd _].
    pose proof (get_current_user_sends_no_write _ _ _ _ _ _ E) as Hw.
    intros [= <- <- <-]. left. now repeat split.
  - pose proof (get_current_user_sends_no_write _ _ _ _ _ _ E) as Hw.
    apply get_current_user_returns in E
      as (payload & sub & urow & Hp & Hs & Hu & -> & Hd & Ht & _).
    destruct (k (user_dict urow) c1) as [r1 c2] eqn:Ek.
    intros [= <- <- <-]. right. exists payload, sub, urow, c1, c2.
    now repeat split.
Qed.

(** X10.  Through [PUT] and [DELETE /api/trails/{id}] a writing statement is
    sent, or the store changes, only if the bearer token validates, its subject
    is the email of a stored user, and the trail exists with that user's id as
    [CreatedBy]; this holds for every token, store and behaviour of the
    driver. *)
Theorem routes_write_only_for_authenticated_owner (settings : Settings)
        (now : Z) (token : jwt.Token) (trail_id : Z) (body : TrailCreate)
        (s : Store) (schedule : list (option string)) :
  (forall r s' log,
     run (PUT_api_trails settings now token trail_id body) s schedule
       = (r, s', log) ->
     sends_write log = true \/ s' <> s ->
     exists payload sub urow t,
       AuthUtils.decode_token settings token now = Return payload /\
       dict_get "sub" payload = Some (JStr sub) /\
       user_by_email sub s = Some urow /\
       trail_by_id trail_id s = Some t /\
       CreatedBy t = UserID urow) /\
  (forall r s' log,
     run (DELETE_api_trails settings now token trail_id) s schedule
       = (r, s', log) ->
     sends_write log = true \/ s' <> s ->
     exists payload sub urow t,
       AuthUtils.decode_token settings token now = Return payload /\
       dict_get "sub" payload = Some (JStr sub) /\
       user_by_email sub s = Some urow /\
       trail_by_id trail_id s = Some t /\
       CreatedBy t = UserID urow).
Proof.
  split; intros r s' log Hrun Hwrite;
    apply guarded_route_cases in Hrun
      as [(-> & Hw & _)
         |(payload & sub & urow & c1 & c2 & Hp & Hs & Hu & Hd & Ht & Hw & Hk
           & <- & <-)].
  - destruct Hwrite as [H|H]; [congruence | now contradiction H].
  - eapply update_trail_write_needs_owner in Hk; [| congruence |].
    + destruct Hk as [Hk|(t & Htrail & Ho)]; [congruence|].
      rewrite Hd in Htrail. now exists payload, sub, urow, t.
    + rewrite Hd. exact Hwrite.
  - destruct Hwrite as [H|H]; [congruence | now contradiction H].
  - eapply delete_trail_write_needs_owner in Hk; [| congruence |].
    + destruct Hk as [Hk|(t & Htrail & Ho)]; [congruence|].
      rewrite Hd in Htrail. now exists payload, sub, urow, t.
    + rewrite Hd. exact Hwrite.
Qed.

Lemma routes_write_only_for_authenticated_owner_witness :
  exists payload sub urow t,
    AuthUtils.decode_token default_settings (token_of first_user 2800) 1000
      = Return payload /\
    dict_get "sub" payload = Some (JStr sub) /\
    user_by_email sub one_trail_store = Some urow /\
    trail_by_id 1 one_trail_store = Some t /\
    CreatedBy t = UserID urow.
Proof.
  apply (proj1 (routes_write_only_for_authenticated_owner
                  default_settings 1000 (token_of first_user 2800) 1 coast_path
                  one_trail_store [])
               (Return (new_trail_row one_user_store coast_path 900 1))
               (UpdateTrail 1 "Coast path" None one_trail_store)
               [Execute (SelectUserByEmail "new@x.com");
                Execute (SelectCreatedBy 1);
                Execute (ExecUpdateTrail 1 "Coast path" None);
                Commit;
                Execute (SelectTrailByID 1)]).
  - reflexivity.
  - left. reflexivity.
Defined.

(** ** Reading trails *)

Lemma trail_by_id_none (s : Store) (i : Z) :
  trail_by_id i s = None <-> forall t, In t (Trail_table s) -> TrailID t <> i.
Proof.
  unfold trail_by_id. split.
  - intros Hnone t Hin. apply (find_none _ _ Hnone) in Hin.
    now apply Z.eqb_neq.
  - intro Hall. destruct (find _ _) as [t|] eqn:E; trivial.
    apply find_some in E as [Hin Hi]. apply Z.eqb_eq in Hi.
    now apply Hall in Hin.
Qed.

(** X11.  [GET /api/trails/{id}] answers 404 exactly when no stored trail
    has the id (the driver permitting); a trail it returns is a row of the
    table with that id; under every behaviour of the driver it sends the one
    [SELECT], leaves the store alone, and fails only with that 404 or with the
    driver's own error, which it does not catch. *)
Theorem get_trail_404_iff_absent (trail_id : Z) (s : Store)
        (schedule : list (option string)) :
  (run (get_trail trail_id) s (None :: schedule) =
     (Raise (HTTPException 404 "Trail not found"), s,
      [Execute (SelectTrailByID trail_id)]) <->
   forall t, In t (Trail_table s) -> TrailID t <> trail_id) /\
  (forall r s' log,
     run (get_trail trail_id) s schedule = (r, s', log) ->
     s' = s /\
     log = [Execute (SelectTrailByID trail_id)] /\
     (forall t, r = Return t -> In t (Trail_table s) /\ TrailID t = trail_id) /\
     (forall e, r = Raise e ->
        e = HTTPException 404 "Trail not found" \/
        exists msg, e = PyodbcError msg /\ In (Some msg) schedule)).
Proof.
  unfold get_trail. unfold_db. simpl. split.
  - rewrite <- trail_by_id_none.
    destruct (trail_by_id trail_id s) as [t|]; simpl; split;
      trivial; discriminate.
  - intros r s' log.
    destruct (trail_by_id trail_id s) as [t|] eqn:Ht;
      driver_cases; intros [= <- <- <-];
      (split; [reflexivity | split; [reflexivity | split;
        [ intros x Hx; try discriminate; injection Hx as <-;
          now apply trail_by_id_found
        | intros x Hx; try discriminate; injection Hx as <-;
          first [ now left
                | right; eexists; split; [reflexivity | now left] ] ]]]).
Qed.

Lemma get_trail_404_iff_absent_witness :
  run (get_trail 7) one_trail_store [None] =
  (Raise (HTTPException 404 "Trail not found"), one_trail_store,
   [Execute (SelectTrailByID 7)]).
Proof.
  apply (proj2 (proj1 (get_trail_404_iff_absent 7 one_trail_store []))).
  intros t [<-|[]]. simpl. lia.
Defined.

Lemma create_trail_returns (now : Z) (body : TrailCreate) (u : UserDict)
      (s s1 : Store) (schedule : list (option string)) (row : TrailRow)
      (log : list Call) :
  ids_below_counter s ->
  run (create_trail now body u) s schedule = (Return row, s1, log) ->
  row = new_trail_row s body now (user_id u) /\
  s1 = AddNewTrail (body_TrailName body) (body_Description body) now (user_id u) s.
Proof.
  intro Hinv. unfold create_trail, row_dict. unfold_db. simpl.
  driver_cases; try discriminate;
    rewrite top_trail_AddNewTrail by exact Hinv; simpl;
    intros [= <- <- _]; now split.
Qed.

(** X12.  A trail that [create_trail] returns can be read back at once: in a
    store whose trail ids lie below the identity counter, the returned row
    carries the name and description of the request body, the creator's id and
    the time of the call; [GET /api/trails/{id}] with its id returns that very
    row, the listing contains it, and every trail that could be read before is
    read as before. *)
Theorem created_trail_can_be_read (now : Z) (body : TrailCreate) (u : UserDict)
        (s s1 : Store) (schedule : list (option string)) (row : TrailRow)
        (log : list Call) :
  ids_below_counter s ->
  run (create_trail now body u) s schedule = (Return row, s1, log) ->
  TrailName row = body_TrailName body /\
  Description row = body_Description body /\
  CreatedBy row = user_id u /\
  DateCreated row = now /\
  run (get_trail (TrailID row)) s1 [] =
    (Return row, s1, [Execute (SelectTrailByID (TrailID row))]) /\
  (exists rows, run get_trails s1 [] = (Return rows, s1, [Execute SelectAllTrails]) /\
                In row rows) /\
  (forall j t, trail_by_id j s = Some t ->
     run (get_trail j) s1 [] = (Return t, s1, [Execute (SelectTrailByID j)])).
Proof.
  intros Hinv Hrun.
  apply (create_trail_returns _ _ _ _ _ _ _ _ Hinv) in Hrun as [-> ->].
  repeat split.
  - unfold get_trail. unfold_db. simpl.
    rewrite trail_by_id_AddNewTrail.
    destruct (trail_by_id (next_TrailID s) s) as [t|] eqn:Ht.
    + apply trail_by_id_found in Ht as [Hin Hid].
      apply Hinv in Hin. lia.
    + now rewrite Z.eqb_refl.
  - eexists. split; [reflexivity|].
    simpl. apply in_or_app. right. now left.
  - intros j t Ht. unfold get_trail. unfold_db. simpl.
    now rewrite trail_by_id_AddNewTrail, Ht.
Qed.

Lemma created_trail_can_be_read_witness :
  TrailName (new_trail_row one_user_store coast_path 1000 1) = "Coast path" /\
  Description (new_trail_row one_user_store coast_path 1000 1) = None /\
  CreatedBy (new_trail_row one_user_store coast_path 1000 1) = 1 /\
  DateCreated (new_trail_row one_user_store coast_path 1000 1) = 1000 /\
  run (get_trail 1) (AddNewTrail "Coast path" None 1000 1 one_user_store) [] =
    (Return (new_trail_row one_user_store coast_path 1000 1),
     AddNewTrail "Coast path" None 1000 1 one_user_store,
     [Execute (SelectTrailByID 1)]) /\
  (exists rows,
     run get_trails (AddNewTrail "Coast path" None 1000 1 one_user_store) [] =
       (Return rows, AddNewTrail "Coast path" None 1000 1 one_user_store,
        [Execute SelectAllTrails]) /\
     In (new_trail_row one_user_store coast_path 1000 1) rows) /\
  (forall j t, trail_by_id j one_user_store = Some t ->
     run (get_trail j) (AddNewTrail "Coast path" None 1000 1 one_user_store) [] =
       (Return t, AddNewTrail "Coast path" None 1000 1 one_user_store,
        [Execute (SelectTrailByID j)])).
Proof.
  apply (created_trail_can_be_read 1000 coast_path first_user one_user_store
           (AddNewTrail "Coast path" None 1000 1 one_user_store) []
           (new_trail_row one_user_store coast_path 1000 1)
           [Execute (ExecAddNewTrail "Coast path" None 1000 1); Commit;
            Execute SelectTopTrail]).
  - intros t [].
  - reflexivity.
Defined.

Lemma delete_trail_returns (i : Z) (u : UserDict) (s s1 : Store)
      (schedule : list (option string)) (msg : string) (log : list Call) :
  run (delete_trail i u) s schedule = (Return msg, s1, log) ->
  msg = "Trail deleted successfully" /\
  s1 = DeleteTrail i s /\
  exists t, trail_by_id i s = Some t /\ CreatedBy t = user_id u.
Proof.
  unfold delete_trail. unfold_db. simpl.
  destruct (trail_by_id i s) as [t|] eqn:Ht; simpl;
    [destruct (CreatedBy t =? user_id u) eqn:Eo|].
  - driver_cases; rewrite ?Eo; simpl; try discriminate;
      driver_cases; try discriminate;
      intros [= <- <- _]; repeat split;
      exists t; apply Z.eqb_eq in Eo; now split.
  - driver_cases; rewrite ?Eo; simpl; discriminate.
  - driver_cases; discriminate.
Qed.

(** X13.  After a delete that succeeded the trail is gone for every caller:
    reading its id gives 404, and so does a second delete or an update of it,
    by anyone; the trails with other ids and the users are as before. *)
Theorem deleted_trail_is_gone (i : Z) (u : UserDict) (s s1 : Store)
        (schedule : list (option string)) (msg : string) (log : list Call) :
  run (delete_trail i u) s schedule = (Return msg, s1, log) ->
  msg = "Trail deleted successfully" /\
  run (get_trail i) s1 [] =
    (Raise (HTTPException 404 "Trail not found"), s1,
     [Execute (SelectTrailByID i)]) /\
  (forall anyone,
     run (delete_trail i anyone) s1 [] =
       (Raise (HTTPException 404 "Trail not found"), s1, [SelectOwner i])) /\
  (forall anyone body,
     run (update_trail i body anyone) s1 [] =
       (Raise (HTTPException 404 "Trail not found"), s1, [SelectOwner i])) /\
  (forall j, j <> i ->
     fst (fst (run (get_trail j) s1 [])) = fst (fst (run (get_trail j) s []))) /\
  (forall t, In t (Trail_table s1) <-> In t (Trail_table s) /\ TrailID t <> i) /\
  User_table s1 = User_table s.
Proof.
  intro Hrun. apply delete_trail_returns in Hrun as (-> & -> & _).
  assert (Hgone : trail_by_id i (DeleteTrail i s) = None)
    by now rewrite trail_by_id_DeleteTrail, Z.eqb_refl.
  split; [reflexivity|]. split; [|split; [|split; [|split; [|split]]]].
  - unfold get_trail. unfold_db. simpl. now rewrite Hgone.
  - intro anyone. unfold delete_trail, SelectOwner. unfold_db. simpl.
    now rewrite Hgone.
  - intros anyone body. unfold update_trail, SelectOwner. unfold_db. simpl.
    now rewrite Hgone.
  - intros j Hj. unfold get_trail. unfold_db. simpl.
    rewrite trail_by_id_DeleteTrail.
    apply Z.eqb_neq in Hj. rewrite Hj.
    now destruct (trail_by_id j s).
  - intro t. simpl. rewrite filter_In.
    rewrite negb_true_iff, Z.eqb_neq. reflexivity.
  - reflexivity.
Qed.

Lemma deleted_trail_is_gone_witness :
  "Trail deleted successfully" = "Trail deleted successfully" /\
  run (get_trail 1) (DeleteTrail 1 one_trail_store) [] =
    (Raise (HTTPException 404 "Trail not found"), DeleteTrail 1 one_trail_store,
     [Execute (SelectTrailByID 1)]) /\
  (forall anyone,
     run (delete_trail 1 anyone) (DeleteTrail 1 one_trail_store) [] =
       (Raise (HTTPException 404 "Trail not found"), DeleteTrail 1 one_trail_store,
        [SelectOwner 1])) /\
  (forall anyone body,
     run (update_trail 1 body anyone) (DeleteTrail 1 one_trail_store) [] =
       (Raise (HTTPException 404 "Trail not found"), DeleteTrail 1 one_trail_store,
        [SelectOwner 1])) /\
  (forall j, j <> 1 ->
     fst (fst (run (get_trail j) (DeleteTrail 1 one_trail_store) [])) =
     fst (fst (run (get_trail j) one_trail_store []))) /\
  (forall t, In t (Trail_table (DeleteTrail 1 one_trail_store)) <->
             In t (Trail_table one_trail_store) /\ TrailID t <> 1) /\
  User_table (DeleteTrail 1 one_trail_store) = User_table one_trail_store.
Proof.
  apply (deleted_trail_is_gone 1 first_user one_trail_store
           (DeleteTrail 1 one_trail_store) [] "Trail deleted successfully"
           [SelectOwner 1; Execute (ExecDeleteTrail 1); Commit]).
  reflexivity.
Defined.

(** ** The answers of the credential check *)



(** ** Resolving a user under driver failures *)

(** X15.  [get_or_create_user] leaves no half-made user behind, whatever the
    driver does: if it returns a user, that user is the first row stored for
    the email, and the store is as before (the user was there) or has gained
    exactly that user's row (no row had the email); if it raises, the store is
    as before. *)
Theorem get_or_create_user_all_or_nothing (s s' : Store) (e : string)
        (flag : bool) (schedule : list (option string)) (r : outcome UserDict)
        (log : list Call) :
  run (UserService.get_or_create_user e flag) s schedule = (r, s', log) ->
  (exists u row,
     r = Return u /\
     user_by_email e s' = Some row /\
     u = user_dict row /\
     (s' = s \/
      user_by_email e s = None /\
      User_table s' = User_table s ++ [row] /\
      row = sentinel_row (next_UserID s)
                         (if flag then local_part e else e) e)) \/
  (exists x, r = Raise x /\ s' = s).
Proof.
  destruct r as [x|u]; intro Hrun.
  - right. exists x. split; [reflexivity|]. revert Hrun.
    unfold UserService.get_or_create_user, UserService.get_user_by_email,
      UserService.create_user.
    unfold_db. simpl.
    destruct (user_by_email e s);
      driver_cases; intro H; inversion H; reflexivity.
  - left. destruct (get_or_create_user_stored _ _ _ _ _ _ _ Hrun) as (row & Hrow & Hu).
    exists u, row. split; [reflexivity|]. split; [exact Hrow|].
    split; [now symmetry|]. revert Hrun Hrow.
    unfold UserService.get_or_create_user, UserService.get_user_by_email,
      UserService.create_user, local_part, next_UserID.
    unfold_db. simpl.
    destruct (user_by_email e s) as [r0|] eqn:Hr;
      driver_cases; intro H; inversion H; subst; try (now left);
      intro Hrow; right; rewrite user_by_email_after_insert in Hrow by exact Hr;
      injection Hrow as <-; now repeat split.
Qed.

Lemma get_or_create_user_all_or_nothing_witness :
  (exists u row,
     @Raise UserDict (HTTPException 500 "Error creating user: disk full") = Return u /\
     user_by_email "b@x.com" one_user_store = Some row /\
     u = user_dict row /\
     (one_user_store = one_user_store \/
      user_by_email "b@x.com" one_user_store = None /\
      User_table one_user_store = User_table one_user_store ++ [row] /\
      row = sentinel_row (next_UserID one_user_store)
                         (if true then local_part "b@x.com" else "b@x.com")
                         "b@x.com")) \/
  (exists x,
     @Raise UserDict (HTTPException 500 "Error creating user: disk full") = Raise x /\
     one_user_store = one_user_store).
Proof.
  apply (get_or_create_user_all_or_nothing one_user_store one_user_store
           "b@x.com" true [None; None; None; Some "disk full"]
           (Raise (HTTPException 500 "Error creating user: disk full"))
           [Execute (SelectUserByEmail "b@x.com"); Execute SelectMaxUserID;
            Execute (InsertUser 2 "b" "b@x.com"); Commit; Rollback]).
  reflexivity.
Defined.
